(** * Cold-Email: discovery orchestration and layered e-mail validation

  A shallow embedding of the Python service (FastAPI endpoints
  [discover_emails] and [validate_email], the cache manager, the per-key
  rate limiter and the syntax / DNS / SMTP validators), followed by the
  properties of the natural-language specification that were checked
  against it.

  Conventions of the embedding:
  - Python [str] is [string]; [float] is the kernel's binary64 [float], so
    that [0.5 + 0.3] is the same double as in CPython;
  - [dict] used as a map is stdpp's [gmap]; lists are [list];
  - [time.time()] readings are rationals (seconds), [datetime.now()]
    readings are integers (microseconds, the resolution of [datetime]);
  - everything outside the process (Redis, DNS, SMTP servers, HTTP, the
    discovery back-ends, the random generator, the clocks) is an oracle on
    an abstract [World], threaded through the process state;
  - an exception that escapes a function is a constructor of its result. *)

From Stdlib Require Import ZArith QArith Floats String Ascii List Lia Lqa Bool.
From Stdlib Require Import DecimalString.
From stdpp Require Import base option gmap strings list.

Set Warnings "-inexact-float,-register-all".
Local Open Scope string_scope.
Local Open Scope Z_scope.

(* ===================================================================== *)
(** ** Python built-ins used by the service *)

Module Py.

(** [s.split(sep)] for a one-character separator: never the empty list. *)
Fixpoint split (sep : ascii) (s : string) : list string :=
  match s with
  | EmptyString => [EmptyString]
  | String c s' =>
      if Ascii.eqb c sep then EmptyString :: split sep s'
      else match split sep s' with
           | h :: t => String c h :: t
           | [] => [String c EmptyString]
           end
  end.

(** [l[i]]: [None] stands for [IndexError]. *)
Definition getitem {A} (l : list A) (i : nat) : option A := l !! i.

(** [c in s] for a character. *)
Fixpoint has_char (c : ascii) (s : string) : bool :=
  match s with
  | EmptyString => false
  | String d s' => Ascii.eqb c d || has_char c s'
  end.

(** [pat in s] for strings. *)
Fixpoint contains (pat s : string) : bool :=
  String.prefix pat s ||
  match s with
  | EmptyString => false
  | String _ s' => contains pat s'
  end.

Definition lower_ascii (c : ascii) : ascii :=
  let n := nat_of_ascii c in
  if (Nat.leb 65 n && Nat.leb n 90)%bool then ascii_of_nat (n + 32) else c.

(** [s.lower()] on ASCII text. *)
Fixpoint lower (s : string) : string :=
  match s with
  | EmptyString => EmptyString
  | String c s' => String (lower_ascii c) (lower s')
  end.

Definition is_empty (s : string) : bool :=
  match s with EmptyString => true | _ => false end.

(** [s.rstrip(ch)] for a one-character set. *)
Fixpoint rstrip (ch : ascii) (s : string) : string :=
  match s with
  | EmptyString => EmptyString
  | String c s' =>
      let r := rstrip ch s' in
      if (Ascii.eqb c ch && is_empty r)%bool then EmptyString else String c r
  end.

Definition is_space (c : ascii) : bool :=
  let n := nat_of_ascii c in
  (Nat.eqb n 32 || (Nat.leb 9 n && Nat.leb n 13) ||
   (Nat.leb 28 n && Nat.leb n 31))%bool.

Fixpoint lstrip_ws (s : string) : string :=
  match s with
  | EmptyString => EmptyString
  | String c s' => if is_space c then lstrip_ws s' else s
  end.

Fixpoint rstrip_ws (s : string) : string :=
  match s with
  | EmptyString => EmptyString
  | String c s' =>
      let r := rstrip_ws s' in
      if (is_space c && is_empty r)%bool then EmptyString else String c r
  end.

(** [s.strip()] on ASCII text. *)
Definition strip (s : string) : string := rstrip_ws (lstrip_ws s).

(** [min(a, b)] on floats: [b] when [b < a], else [a]. *)
Definition min (a b : float) : float :=
  if PrimFloat.ltb b a then b else a.

(** [x or d] for an [Optional[int]]: [None] and [0] are falsy. *)
Definition int_or (x : option Z) (d : Z) : Z :=
  match x with
  | Some n => if n =? 0 then d else n
  | None => d
  end.

(** [str(n)] for an [int]. *)
Definition str_int (n : Z) : string :=
  DecimalString.NilZero.string_of_int (Z.to_int n).

(** [random.choices(population, k=k)]: [draw i] is the raw value of the
    i-th draw of the generator, reduced to an index of the population. *)
Definition choices (population : list ascii) (k : nat) (draw : nat -> nat)
  : list ascii :=
  map (fun i => nth (draw i mod length population)%nat population "0"%char)
      (seq 0 k).

Definition ascii_lowercase : list ascii :=
  list_ascii_of_string "abcdefghijklmnopqrstuvwxyz".
Definition digits : list ascii := list_ascii_of_string "0123456789".

End Py.

(* ===================================================================== *)
(** ** app/config.py *)

Record Settings := {
  rate_limit_per_minute : Z;
  cache_ttl_seconds : Z;
  redis_url : option string;
  enable_third_party : bool;
  hunter_io_api_key : option string;
  enable_whois : bool;
  enable_github : bool;
  enable_social_scraping : bool
}.

(** The defaults of [class Settings]. *)
Definition default_settings : Settings := {|
  rate_limit_per_minute := 10;
  cache_ttl_seconds := 3600;
  redis_url := None;
  enable_third_party := false;
  hunter_io_api_key := None;
  enable_whois := true;
  enable_github := true;
  enable_social_scraping := true
|}.

(* ===================================================================== *)
(** ** app/utils/cache.py *)

(** What one call on the Redis client did. [NoClient] is the case
  [self.redis_client is None], in which the call is not made at all. *)
Inductive RedisOutcome (A : Type) :=
  | NoClient
  | Replied (a : A)
  | Raised (msg : string).
Arguments NoClient {A}.
Arguments Replied {A} a.
Arguments Raised {A} msg.

Module CacheManager.
Section WithValue.
Context {V : Type}.

(** [self.memory_cache]: key -> (value, expiry instant). *)
Abbreviation store := (gmap string (V * Z)).

Definition timedelta_seconds (ttl : Z) : Z := ttl * 1000000.

(** [get]: [redis] is the outcome of [redis_client.get(key)] already
    decoded by [json.loads] ([Replied None] is a falsy reply), [now] the
    reading of [datetime.now()]. *)
Definition get (redis : RedisOutcome (option V)) (now : Z) (key : string)
    (memory_cache : store) : option V * store :=
  match redis with
  | Replied (Some value) => (Some value, memory_cache)
  | _ =>
      match memory_cache !! key with
      | Some (cached_data, expiry) =>
          if now <? expiry then (Some cached_data, memory_cache)
          else (None, delete key memory_cache)
      | None => (None, memory_cache)
      end
  end.

(** [_clean_expired]: drops every entry with [now >= expiry]. *)
Definition _clean_expired (now : Z) (memory_cache : store) : store :=
  filter (fun kv => ¬ (snd (snd kv) <= now)) memory_cache.

(** [set]: [redis] is the outcome of [redis_client.setex(...)], [now] the
    reading of [datetime.now()] for the expiry, [now_clean] the later
    reading taken by [_clean_expired] when the sweep runs. *)
Definition set (settings : Settings) (redis : RedisOutcome unit)
    (now now_clean : Z) (key : string) (value : V) (ttl : option Z)
    (memory_cache : store) : bool * store :=
  let ttl := Py.int_or ttl (cache_ttl_seconds settings) in
  match redis with
  | Replied _ => (true, memory_cache)
  | _ =>
      let expiry := now + timedelta_seconds ttl in
      let memory_cache := <[key := (value, expiry)]> memory_cache in
      let memory_cache :=
        if 1000 <? Z.of_nat (size memory_cache)
        then _clean_expired now_clean memory_cache
        else memory_cache in
      (true, memory_cache)
  end.

(** [delete]: the Redis outcome does not influence the in-process map. *)
Definition delete (redis : RedisOutcome unit) (key : string)
    (memory_cache : store) : bool * store :=
  (true, base.delete key memory_cache).

End WithValue.
End CacheManager.

(* ===================================================================== *)
(** ** app/middleware/rate_limiter.py *)

Module APIKeyRateLimiter.

(** [self.requests]: identity -> recorded request instants. *)
Abbreviation requests_map := (gmap string (list Q)).

Definition Qgtb (a b : Q) : bool := negb (Qle_bool a b).

(** [is_allowed]: [now] is the reading of [time.time()]. *)
Definition is_allowed (settings : Settings) (now : Q) (api_key : string)
    (requests : requests_map) : bool * requests_map :=
  let minute_ago := (now - 60)%Q in
  let requests :=
    match requests !! api_key with
    | None => <[api_key := []]> requests
    | Some _ => requests
    end in
  let kept :=
    List.filter (fun req_time => Qgtb req_time minute_ago)
                (default [] (requests !! api_key)) in
  let requests := <[api_key := kept]> requests in
  if Z.of_nat (length kept) >=? rate_limit_per_minute settings
  then (false, requests)
  else (true, <[api_key := (kept ++ [now])%list]> requests).

End APIKeyRateLimiter.

(* ===================================================================== *)
(** ** app/models/requests.py and app/models/responses.py *)

Module EmailResult.
Record t := {
  email : string;
  source : string;
  confidence : float;
  found_at : option string
}.
End EmailResult.

(** Values of the [details] dictionaries ([Dict[str, Any]]). *)
Inductive DetailValue :=
  | DStr (s : string)
  | DBool (b : bool)
  | DInt (n : Z)
  | DList (l : list string)
  | DDict (d : gmap string DetailValue).

Module ValidationResult.
Record t := {
  valid : bool;
  message : string;
  details : option (gmap string DetailValue);
  is_catch_all : option bool;
  email_provider : option string;
  is_disposable : bool
}.
End ValidationResult.

Module EmailDiscoveryRequest.
Record t := {
  domain : string;
  methods : list string;
  detailed : bool
}.
End EmailDiscoveryRequest.

(** [Literal["basic", "advanced"]]. *)
Inductive Level := basic | advanced.

Definition Level_str (l : Level) : string :=
  match l with basic => "basic" | advanced => "advanced" end.

Module EmailValidationRequest.
Record t := {
  email : string;
  validation_level : Level;
  detailed : bool
}.
End EmailValidationRequest.

(** [EmailDiscoveryResponse], also the shape of the cached [response_data]. *)
Module EmailDiscoveryResponse.
Record t := {
  domain : string;
  emails : list EmailResult.t;
  total_found : nat;
  cached : bool;
  methods_used : list string
}.
End EmailDiscoveryResponse.

(** [EmailValidationResponse], also the shape of the cached [response_data]. *)
Module EmailValidationResponse.
Record t := {
  email : string;
  valid : bool;
  validation_results : option (gmap string ValidationResult.t);
  risk_score : float;
  cached : bool
}.
End EmailValidationResponse.

(** What the shared cache holds: the two endpoints store their
    [response_data] dictionaries in the same [cache_manager]. Both are
    non-empty dictionaries, hence truthy in [if cached_result:]. *)
Inductive CacheVal :=
  | CDiscovery (d : EmailDiscoveryResponse.t)
  | CValidation (v : EmailValidationResponse.t).

(** Outcome of an endpoint call. [Unhandled] is an exception that is not an
    [HTTPException] and escapes the handler. *)
Inductive HTTPResult (A : Type) :=
  | Ok (a : A)
  | HTTPException (status_code : Z) (detail : string)
  | Unhandled.
Arguments Ok {A} a.
Arguments HTTPException {A} status_code detail.
Arguments Unhandled {A}.

(* ===================================================================== *)
(** ** The world outside the process *)

(** The object that [validate_email] of the [email_validator] library
    returns for an address it accepts, as far as the program reads it. The
    library's [ValidatedEmail] gives the normalized address under [email],
    the part before the at-sign under [local_part] and the part after it
    under [domain]; it has no attribute called [local]. *)
Module ValidatedEmail.

Record t := {
  email : string;
  local_part : string;
  domain : string;
  (** [str(e)] of the [AttributeError] that a read of a name the object
      does not have raises. *)
  attribute_error : string -> string
}.

(** The names under which [SyntaxValidator.validate] reads the object. *)
Inductive Attribute := attr_email | attr_local | attr_domain.

Definition Attribute_name (a : Attribute) : string :=
  match a with
  | attr_email => "email"
  | attr_local => "local"
  | attr_domain => "domain"
  end.

(** [validated_email.<name>]: the value, or the text of the
    [AttributeError] raised. *)
Definition getattr (v : t) (a : Attribute) : string + string :=
  match a with
  | attr_email => inl (email v)
  | attr_domain => inl (domain v)
  | attr_local => inr (attribute_error v (Attribute_name a))
  end.

End ValidatedEmail.

(** [email_validator.validate_email(email, check_deliverability=False)]. *)
Inductive LibResult :=
  | Validated (validated_email : ValidatedEmail.t)
  | EmailNotValidError (msg : string)
  | LibOtherError (msg : string).

Inductive RdType := A_record | MX_record.

(** [resolver.resolve(domain, rdtype)]: the answer's records as strings, or
    the exception raised. *)
Inductive ResolveOutcome :=
  | Answer (records : list string)
  | NXDOMAIN
  | NoAnswer
  | Timeout
  | ResolveError (msg : string).

(** Exception classes told apart by the handlers of [_smtp_check_sync]. *)
Inductive SmtpExn := SocketTimeout | SocketGaierror | SMTPException | OtherException.

Inductive Reply (A : Type) :=
  | Returns (a : A)
  | Raises (e : SmtpExn).
Arguments Returns {A} a.
Arguments Raises {A} e.

(** One conversation with a mail exchanger: what each [smtplib] call of
    [_smtp_check_sync] does if it is reached. [quit] is the exit of the
    [with] block ([Raises] when an exception escapes [SMTP.__exit__]). *)
Record Session := {
  connect : Reply unit;
  helo : Reply unit;
  has_extn_VRFY : bool;
  verify : Reply Z;
  mail : Reply unit;
  rcpt : Reply Z;
  quit : Reply unit
}.

(** [discover(domain)] of a discovery provider: the list it returns, or the
    exception that [asyncio.gather] collects with [return_exceptions=True]
    (an instance of [Exception]; a cancellation is outside the model). *)
Inductive ProviderOutcome :=
  | Discovered (results : list EmailResult.t)
  | ProviderFailed (msg : string).

(** [client.get(url)] of the disposable-list refresh. *)
Inductive HttpOutcome :=
  | HttpResponse (status_code : Z) (text : string)
  | HttpFailed (msg : string).

Record Env (World : Type) := {
  settings : Settings;
  time_time : World -> Q * World;
  datetime_now : World -> Z * World;
  redis_get : World -> string -> (string + option CacheVal) * World;
  redis_setex : World -> string -> Z -> CacheVal -> (string + unit) * World;
  provider_discover : World -> string -> string -> ProviderOutcome * World;
  email_validator : string -> LibResult;
  resolve : World -> string -> RdType -> ResolveOutcome * World;
  smtp_session : World -> string -> string -> Session * World;
  random_draws : World -> (nat -> nat) * World;
  http_get : World -> string -> HttpOutcome * World;
  md5_hexdigest : string -> string;
  repr_list : list string -> string
}.
Arguments settings {World} _.
Arguments time_time {World} _ _.
Arguments datetime_now {World} _ _.
Arguments redis_get {World} _ _ _.
Arguments redis_setex {World} _ _ _ _ _.
Arguments provider_discover {World} _ _ _ _.
Arguments email_validator {World} _ _.
Arguments resolve {World} _ _ _ _.
Arguments smtp_session {World} _ _ _ _.
Arguments random_draws {World} _ _.
Arguments http_get {World} _ _ _.
Arguments md5_hexdigest {World} _ _.
Arguments repr_list {World} _ _.

Inductive Stage := Syntax | DNS | SMTP.

Definition Stage_key (st : Stage) : string :=
  match st with Syntax => "syntax" | DNS => "dns" | SMTP => "smtp" end.

(** Ghost trace: the calls that left the orchestration code, in order. *)
Inductive Event :=
  | EvRedisGet (key : string)
  | EvRedisSetex (key : string) (ttl : Z) (value : CacheVal)
  | EvMemorySet (key : string) (value : CacheVal)
  | EvProvider (method domain : string) (outcome : ProviderOutcome)
  | EvStage (stage : Stage) (email : string) (result : ValidationResult.t)
  | EvResolve (domain : string) (rd : RdType)
  | EvSmtpProbe (mx_record rcpt : string) (accepted : bool)
  | EvHttpGet (url : string).

(** The process: the module-level singletons ([cache_manager],
    [api_key_rate_limiter], [disposable_detector]) and the world. *)
Record Proc (World : Type) := {
  world : World;
  trace : list Event;
  redis_client : bool;
  memory_cache : gmap string (CacheVal * Z);
  requests : gmap string (list Q);
  disposable_domains : gset string;
  last_update : option Q;
  fallback_domains : gset string
}.
Arguments world {World} _.
Arguments trace {World} _.
Arguments redis_client {World} _.
Arguments memory_cache {World} _.
Arguments requests {World} _.
Arguments disposable_domains {World} _.
Arguments last_update {World} _.
Arguments fallback_domains {World} _.

Section Process.
Context {World : Type} (E : Env World).

Definition Act (A : Type) : Type := Proc World -> A * Proc World.

Definition ret {A} (a : A) : Act A := fun s => (a, s).

Definition bind {A B} (m : Act A) (k : A -> Act B) : Act B :=
  fun s => let '(a, s1) := m s in k a s1.

Definition with_world (s : Proc World) (w : World) : Proc World :=
  {| world := w; trace := trace s; redis_client := redis_client s;
     memory_cache := memory_cache s; requests := requests s;
     disposable_domains := disposable_domains s;
     last_update := last_update s; fallback_domains := fallback_domains s |}.

Definition with_trace (s : Proc World) (t : list Event) : Proc World :=
  {| world := world s; trace := t; redis_client := redis_client s;
     memory_cache := memory_cache s; requests := requests s;
     disposable_domains := disposable_domains s;
     last_update := last_update s; fallback_domains := fallback_domains s |}.

Definition with_memory_cache (s : Proc World)
    (m : gmap string (CacheVal * Z)) : Proc World :=
  {| world := world s; trace := trace s; redis_client := redis_client s;
     memory_cache := m; requests := requests s;
     disposable_domains := disposable_domains s;
     last_update := last_update s; fallback_domains := fallback_domains s |}.

Definition with_requests (s : Proc World)
    (r : gmap string (list Q)) : Proc World :=
  {| world := world s; trace := trace s; redis_client := redis_client s;
     memory_cache := memory_cache s; requests := r;
     disposable_domains := disposable_domains s;
     last_update := last_update s; fallback_domains := fallback_domains s |}.

Definition with_disposable (s : Proc World) (d : gset string)
    (u : option Q) : Proc World :=
  {| world := world s; trace := trace s; redis_client := redis_client s;
     memory_cache := memory_cache s; requests := requests s;
     disposable_domains := d;
     last_update := u; fallback_domains := fallback_domains s |}.

(** An oracle call: the world moves on. *)
Definition ask {A} (q : World -> A * World) : Act A :=
  fun s => let '(a, w) := q (world s) in (a, with_world s w).

(** Appends to the ghost trace. *)
Definition emit (e : Event) : Act unit :=
  fun s => (tt, with_trace s (trace s ++ [e])).

(** Reads an attribute of a singleton. *)
Definition gets {A} (f : Proc World -> A) : Act A :=
  fun s => (f s, s).

(** Assigns attributes of a singleton; [f] leaves world and trace alone. *)
Definition modify (f : Proc World -> Proc World) : Act unit :=
  fun s => (tt, with_trace (with_world (f s) (world s)) (trace s)).

End Process.

Notation "'do' x <- m ; k" := (bind m (fun x => k))
  (at level 10, x pattern, m at level 100, k at level 200,
   format "'[v' 'do'  x  <-  m ; '/' k ']'").
Notation "'run' m ; k" := (bind m (fun _ => k))
  (at level 10, m at level 100, k at level 200,
   format "'[v' 'run'  m ; '/' k ']'").

(* ===================================================================== *)
(** ** The singletons seen from the endpoints *)

Section Singletons.
Context {World : Type} (E : Env World).

(** [await cache_manager.get(key)]. The Redis call is made only when a
    client exists. The clock is sampled once per call, whether or not the
    branch that compares it with an expiry is taken; a reading that is not
    used has no effect on the result. *)
Definition cache_get (key : string) : Act (World := World) (option CacheVal) :=
  do has_client <- gets redis_client;
  do redis <-
    (if has_client : bool then
       run emit (EvRedisGet key);
       do r <- ask (fun w => redis_get E w key);
       ret match r with inl msg => Raised msg | inr v => Replied v end
     else ret NoClient);
  do now <- ask (datetime_now E);
  do memory <- gets memory_cache;
  let '(r, m) := CacheManager.get redis now key memory in
  run modify (fun s => with_memory_cache s m);
  ret r.

(** [await cache_manager.set(key, value)] (the endpoints pass no [ttl]).
    As in [cache_get] the two clock readings are sampled up front. *)
Definition cache_set (key : string) (value : CacheVal) (ttl : option Z)
  : Act (World := World) bool :=
  do has_client <- gets redis_client;
  do redis <-
    (if has_client : bool then
       let ttl' := Py.int_or ttl (cache_ttl_seconds (settings E)) in
       run emit (EvRedisSetex key ttl' value);
       do r <- ask (fun w => redis_setex E w key ttl' value);
       ret match r with inl msg => Raised msg | inr v => Replied v end
     else ret NoClient);
  do now <- ask (datetime_now E);
  do now_clean <- ask (datetime_now E);
  run match redis with
      | Replied _ => ret tt
      | _ => emit (EvMemorySet key value)
      end;
  do memory <- gets memory_cache;
  let '(r, m) :=
    CacheManager.set (settings E) redis now now_clean key value ttl memory in
  run modify (fun s => with_memory_cache s m);
  ret r.

(** [check_rate_limit(request, api_key)]: [None] is a normal return, [Some]
    the [HTTPException] raised. *)
Definition check_rate_limit (api_key : string)
  : Act (World := World) (option (Z * string)) :=
  do now <- ask (time_time E);
  do recorded <- gets requests;
  let '(allowed, r) :=
    APIKeyRateLimiter.is_allowed (settings E) now api_key recorded in
  run modify (fun s => with_requests s r);
  ret (if allowed : bool then None
       else Some (429, "Rate limit exceeded. Maximum " ++
                       Py.str_int (rate_limit_per_minute (settings E)) ++
                       " requests per minute.")).

End Singletons.

(* ===================================================================== *)
(** ** app/services/email_validation/syntax_validator.py *)

Module SyntaxValidator.
Section WithEnv.
Context {World : Type} (E : Env World).

(** The [except Exception] handler. *)
Definition validation_failed (msg : string) : ValidationResult.t :=
  {| ValidationResult.valid := false;
     ValidationResult.message := "Email validation failed: " ++ msg;
     ValidationResult.details :=
       Some (<["error_type" := DStr "validation_error"]> ∅);
     ValidationResult.is_catch_all := None;
     ValidationResult.email_provider := None;
     ValidationResult.is_disposable := false |}.

(** The attribute reads of the [try] block happen in the order of the
    source: [email], then [local], then [domain]; a read that raises ends
    the block in the [except Exception] handler. *)
Definition validate (email : string) : ValidationResult.t :=
  match email_validator E email with
  | Validated validated_email =>
      match ValidatedEmail.getattr validated_email ValidatedEmail.attr_email
      with
      | inr e => validation_failed e
      | inl normalized_email =>
          match ValidatedEmail.getattr validated_email
                  ValidatedEmail.attr_local with
          | inr e => validation_failed e
          | inl local =>
              match ValidatedEmail.getattr validated_email
                      ValidatedEmail.attr_domain with
              | inr e => validation_failed e
              | inl domain =>
                  {| ValidationResult.valid := true;
                     ValidationResult.message := "Email syntax is valid";
                     ValidationResult.details :=
                       Some (<["normalized_email" := DStr normalized_email]>
                             (<["local_part" := DStr local]>
                              (<["domain" := DStr domain]> ∅)));
                     ValidationResult.is_catch_all := None;
                     ValidationResult.email_provider := None;
                     ValidationResult.is_disposable := false |}
              end
          end
      end
  | EmailNotValidError msg =>
      {| ValidationResult.valid := false;
         ValidationResult.message := "Email syntax is invalid: " ++ msg;
         ValidationResult.details :=
           Some (<["error_type" := DStr "syntax_error"]> ∅);
         ValidationResult.is_catch_all := None;
         ValidationResult.email_provider := None;
         ValidationResult.is_disposable := false |}
  | LibOtherError msg => validation_failed msg
  end.

End WithEnv.
End SyntaxValidator.

(* ===================================================================== *)
(** ** app/services/email_validation/dns_validator.py *)

Module DNSValidator.

(** [self.provider_patterns], in insertion order. *)
Definition provider_patterns : list (string * string) :=
  [ ("gmail.com", "Gmail"); ("googlemail.com", "Gmail");
    ("outlook.com", "Outlook"); ("hotmail.com", "Outlook");
    ("live.com", "Outlook"); ("yahoo.com", "Yahoo");
    ("yahoo.co.uk", "Yahoo"); ("yahoo.ca", "Yahoo"); ("aol.com", "AOL");
    ("icloud.com", "iCloud"); ("me.com", "iCloud"); ("mac.com", "iCloud");
    ("protonmail.com", "ProtonMail"); ("yandex.com", "Yandex");
    ("yandex.ru", "Yandex"); ("zoho.com", "Zoho");
    ("fastmail.com", "Fastmail"); ("tutanota.com", "Tutanota") ].

(** [self.business_providers], in insertion order. *)
Definition business_providers : list (string * string) :=
  [ ("google.com", "Google Workspace"); ("microsoft.com", "Microsoft 365");
    ("office365.com", "Microsoft 365");
    ("outlook.office365.com", "Microsoft 365");
    ("amazonaws.com", "Amazon SES"); ("sendgrid.net", "SendGrid");
    ("mailgun.org", "Mailgun"); ("postmarkapp.com", "Postmark");
    ("mandrillapp.com", "Mandrill"); ("mailchimp.com", "Mailchimp") ].

Definition provider_info_init : gmap string DetailValue :=
  <["provider_type" := DStr "Custom"]>
  (<["is_business" := DBool false]>
   (<["is_free" := DBool false]>
    (<["provider_name" := DStr "Unknown"]> ∅))).

(** The first entry of a table whose key occurs in [mx_lower]. *)
Definition first_match (table : list (string * string)) (mx_lower : string)
  : option string :=
  snd <$> List.find (fun kv => Py.contains (fst kv) mx_lower) table.

Definition free_info (provider : string) : gmap string DetailValue :=
  <["provider_type" := DStr "Free"]>
  (<["is_free" := DBool true]>
   (<["provider_name" := DStr provider]> provider_info_init)).

Definition business_info (provider : string) : gmap string DetailValue :=
  <["provider_type" := DStr "Business"]>
  (<["is_business" := DBool true]>
   (<["provider_name" := DStr provider]> provider_info_init)).

(** First loop of [_analyze_mx_records]: the curated tables. *)
Fixpoint analyze_tables (mx_records : list string)
  : option (gmap string DetailValue) :=
  match mx_records with
  | [] => None
  | mx_record :: rest =>
      let mx_lower := Py.lower mx_record in
      match first_match provider_patterns mx_lower with
      | Some provider => Some (free_info provider)
      | None =>
          match first_match business_providers mx_lower with
          | Some provider => Some (business_info provider)
          | None => analyze_tables rest
          end
      end
  end.

(** Second loop of [_analyze_mx_records]: the hosted-mail host names. *)
Fixpoint analyze_patterns (mx_records : list string)
  : option (gmap string DetailValue) :=
  match mx_records with
  | [] => None
  | mx_record :: rest =>
      let mx_lower := Py.lower mx_record in
      if existsb (fun pattern => Py.contains pattern mx_lower)
           ["aspmx.l.google.com"; "alt1.aspmx.l.google.com";
            "alt2.aspmx.l.google.com"]
      then Some (business_info "Google Workspace")
      else if existsb (fun pattern => Py.contains pattern mx_lower)
                ["outlook.office365.com"; "mail.protection.outlook.com"]
      then Some (business_info "Microsoft 365")
      else analyze_patterns rest
  end.

Definition _analyze_mx_records (mx_records : list string)
  : gmap string DetailValue :=
  match analyze_tables mx_records with
  | Some info => info
  | None =>
      match analyze_patterns mx_records with
      | Some info => info
      | None => provider_info_init
      end
  end.

Definition failure (msg error_type : string) : ValidationResult.t :=
  {| ValidationResult.valid := false;
     ValidationResult.message := msg;
     ValidationResult.details :=
       Some (<["error_type" := DStr error_type]> ∅);
     ValidationResult.is_catch_all := None;
     ValidationResult.email_provider := None;
     ValidationResult.is_disposable := false |}.

(** [provider_info.get('provider_type', 'Custom')]. *)
Definition provider_type (info : gmap string DetailValue) : string :=
  match info !! "provider_type" with
  | Some (DStr s) => s
  | _ => "Custom"
  end.

Section WithEnv.
Context {World : Type} (E : Env World).

Definition lookup (domain : string) (rd : RdType)
  : Act (World := World) ResolveOutcome :=
  run emit (EvResolve domain rd);
  ask (fun w => resolve E w domain rd).

Definition validate (email : string)
  : Act (World := World) ValidationResult.t :=
  match Py.getitem (Py.split "@" email) 1 with
  | None =>
      ret (failure "DNS validation failed: list index out of range"
                   "dns_error")
  | Some domain =>
      do a <- lookup domain A_record;
      match a with
      | NXDOMAIN | NoAnswer =>
          ret (failure "Domain does not exist" "domain_not_found")
      | Timeout => ret (failure "DNS lookup timeout" "dns_timeout")
      | ResolveError msg =>
          ret (failure ("DNS validation failed: " ++ msg) "dns_error")
      | Answer _ =>
          do mx_records <- lookup domain MX_record;
          match mx_records with
          | Answer exchanges =>
              let mx_list := map (Py.rstrip ".") exchanges in
              match mx_list with
              | [] =>
                  ret (failure "Domain has no MX records" "no_mx_records")
              | _ =>
                  let provider_info := _analyze_mx_records mx_list in
                  ret {| ValidationResult.valid := true;
                         ValidationResult.message :=
                           "Domain has valid MX records";
                         ValidationResult.details :=
                           Some (<["mx_records" := DList mx_list]>
                                 (<["mx_count" :=
                                      DInt (Z.of_nat (length mx_list))]>
                                  (<["provider_info" :=
                                       DDict provider_info]> ∅)));
                         ValidationResult.is_catch_all := None;
                         ValidationResult.email_provider :=
                           Some (provider_type provider_info);
                         ValidationResult.is_disposable := false |}
              end
          | NXDOMAIN | NoAnswer =>
              ret (failure "Domain has no MX records" "no_mx_records")
          | Timeout => ret (failure "DNS lookup timeout" "dns_timeout")
          | ResolveError msg =>
              ret (failure ("DNS validation failed: " ++ msg) "dns_error")
          end
      end
  end.

End WithEnv.
End DNSValidator.

(* ===================================================================== *)
(** ** app/services/email_validation/disposable_detector.py *)

Module DisposableEmailDetector.

(** [self.update_interval]: 24 hours in seconds. *)
Definition update_interval : Q := inject_Z (24 * 60 * 60).

Definition blocklist_url : string :=
  "https://raw.githubusercontent.com/disposable-email-domains/disposable-email-domains/master/disposable_email_blocklist.conf".

(** The set built from the lines of the fetched list. *)
Fixpoint parse_domains (lines : list string) : gset string :=
  match lines with
  | [] => ∅
  | line :: rest =>
      let line := Py.strip line in
      if (negb (Py.is_empty line) && negb (String.prefix "#" line))%bool
      then {[ Py.lower line ]} ∪ parse_domains rest
      else parse_domains rest
  end.

Section WithEnv.
Context {World : Type} (E : Env World).

Definition needs_update (current_time : Q) (last : option Q) : bool :=
  match last with
  | None => true
  | Some t => APIKeyRateLimiter.Qgtb (current_time - t)%Q update_interval
  end.

Definition _update_disposable_list : Act (World := World) unit :=
  do current_time <- ask (time_time E);
  do last <- gets last_update;
  if needs_update current_time last then
    run emit (EvHttpGet blocklist_url);
    do response <- ask (fun w => http_get E w blocklist_url);
    match response with
    | HttpResponse status_code text =>
        if status_code =? 200 then
          modify (fun s =>
            with_disposable s (parse_domains (Py.split "010"%char text))
                            (Some current_time))
        else ret tt
    | HttpFailed _ =>
        do current <- gets disposable_domains;
        if bool_decide (current = ∅) then
          modify (fun s =>
            with_disposable s (fallback_domains s) (Some current_time))
        else ret tt
    end
  else ret tt.

Definition is_disposable (email : string) : Act (World := World) bool :=
  if (Py.is_empty email || negb (Py.has_char "@" email))%bool then ret false
  else
    match Py.getitem (Py.split "@" email) 1 with
    | None => ret false
    | Some d =>
        let domain := Py.lower d in
        run _update_disposable_list;
        do current <- gets disposable_domains;
        ret (bool_decide (domain ∈ current))
    end.

End WithEnv.
End DisposableEmailDetector.

(* ===================================================================== *)
(** ** app/services/email_validation/smtp_validator.py *)

Module SMTPValidator.

(** The triple [(valid, mailbox_exists, can_deliver)]. *)
Definition Check : Type := bool * bool * bool.
Definition accepted : Check := (true, true, true).
Definition rejected : Check := (false, false, false).

(** [_smtp_check_sync] on one conversation. Every handler of the function
    returns [rejected]; a [return] inside the [with] block is lost when the
    exit of the block raises. *)
Definition _smtp_check_sync (c : Session) : Check :=
  match connect c with
  | Raises _ => rejected
  | Returns _ =>
      let leave (r : Check) : Check :=
        match quit c with Returns _ => r | Raises _ => rejected end in
      match helo c with
      | Raises _ => rejected
      | Returns _ =>
          let mail_from_rcpt_to : Check :=
            match mail c with
            | Raises _ => rejected
            | Returns _ =>
                match rcpt c with
                | Raises _ => rejected
                | Returns code =>
                    if code =? 250 then leave accepted
                    else if existsb (Z.eqb code)
                              [450; 451; 452; 550; 551; 552; 553]
                    then leave rejected
                    else leave rejected
                end
            end in
          if has_extn_VRFY c then
            match verify c with
            | Returns code =>
                if code =? 250 then leave accepted else mail_from_rcpt_to
            | Raises SMTPException => mail_from_rcpt_to
            | Raises _ => rejected
            end
          else mail_from_rcpt_to
      end
  end.

Section WithEnv.
Context {World : Type} (E : Env World).

(** [_check_mailbox_smtp]: one probe of [email] at [mx_record]. *)
Definition _check_mailbox_smtp (email mx_record : string)
  : Act (World := World) Check :=
  do c <- ask (fun w => smtp_session E w mx_record email);
  let result := _smtp_check_sync c in
  run emit (EvSmtpProbe mx_record email (fst (fst result)));
  ret result.

(** The forged recipient of the catch-all probe. *)
Definition random_username (draw : nat -> nat) : string :=
  string_of_list_ascii
    (Py.choices (Py.ascii_lowercase ++ Py.digits)%list 10 draw).

Definition _check_catch_all (email mx_record : string)
  : Act (World := World) bool :=
  match Py.getitem (Py.split "@" email) 1 with
  | None => ret false
  | Some domain =>
      do draw <- ask (random_draws E);
      let test_email := random_username draw ++ "@" ++ domain in
      do result <- _check_mailbox_smtp test_email mx_record;
      ret (fst (fst result) && snd (fst result))%bool
  end.

Definition found (mx_record : string) (result : Check)
    (is_catch_all is_disposable : bool) : ValidationResult.t :=
  {| ValidationResult.valid := true;
     ValidationResult.message := "Mailbox exists and accepts emails";
     ValidationResult.details :=
       Some (<["mx_record" := DStr mx_record]>
             (<["mailbox_exists" := DBool (snd (fst result))]>
              (<["can_deliver" := DBool (snd result)]>
               (<["is_catch_all" := DBool is_catch_all]> ∅))));
     ValidationResult.is_catch_all := Some is_catch_all;
     ValidationResult.email_provider := None;
     ValidationResult.is_disposable := is_disposable |}.

Definition not_found (msg error_type : string) (is_disposable : bool)
  : ValidationResult.t :=
  {| ValidationResult.valid := false;
     ValidationResult.message := msg;
     ValidationResult.details :=
       Some (<["error_type" := DStr error_type]> ∅);
     ValidationResult.is_catch_all := None;
     ValidationResult.email_provider := None;
     ValidationResult.is_disposable := is_disposable |}.

(** The loop [for mx_record in mx_records] of [validate]. *)
Fixpoint try_mx_records (email : string) (is_disposable : bool)
    (mx_records : list string) : Act (World := World) ValidationResult.t :=
  match mx_records with
  | [] =>
      ret (not_found "Mailbox does not exist or is not accepting emails"
                     "mailbox_not_found" is_disposable)
  | mx_record :: rest =>
      do result <- _check_mailbox_smtp email mx_record;
      if fst (fst result) then
        do is_catch_all <- _check_catch_all email mx_record;
        ret (found mx_record result is_catch_all is_disposable)
      else try_mx_records email is_disposable rest
  end.

Definition validate (email : string) (mx_records : list string)
  : Act (World := World) ValidationResult.t :=
  match mx_records with
  | [] =>
      ret (not_found "No MX records available for SMTP validation"
                     "no_mx_records" false)
  | _ =>
      do is_disposable <- DisposableEmailDetector.is_disposable E email;
      try_mx_records email is_disposable mx_records
  end.

End WithEnv.
End SMTPValidator.

(* ===================================================================== *)
(** ** app/api/v1/discovery.py *)

Module Discovery.

(** The module-level [providers] dictionary: key and [is_available()] of
    each provider, as a function of the settings. *)
Definition providers : list (string * (Settings -> bool)) :=
  [ ("scraping", fun _ => true);
    ("patterns", fun _ => true);
    ("third_party",
      fun st =>
        (match hunter_io_api_key st with
         | Some k => negb (Py.is_empty k)
         | None => false
         end && enable_third_party st)%bool);
    ("whois", enable_whois);
    ("github", enable_github);
    ("social", enable_social_scraping) ].

Definition find_provider (method : string) : option (Settings -> bool) :=
  snd <$> List.find (fun p => String.eqb method (fst p)) providers.

(** [method in providers and providers[method].is_available()]. *)
Definition selectable (st : Settings) (method : string) : bool :=
  match find_provider method with
  | Some is_available => is_available st
  | None => false
  end.

Fixpoint insert_sorted (x : string) (l : list string) : list string :=
  match l with
  | [] => [x]
  | y :: l' => if String.leb x y then x :: l else y :: insert_sorted x l'
  end.

(** [sorted(request.methods)]. *)
Definition sorted (l : list string) : list string :=
  fold_right insert_sorted [] l.

(** The loop that removes duplicates while preserving order. *)
Fixpoint unique_from (seen : gset string) (all_emails : list EmailResult.t)
  : list EmailResult.t :=
  match all_emails with
  | [] => []
  | email_result :: rest =>
      if bool_decide (EmailResult.email email_result ∈ seen)
      then unique_from seen rest
      else email_result ::
           unique_from ({[ EmailResult.email email_result ]} ∪ seen) rest
  end.

Definition unique_emails (all_emails : list EmailResult.t)
  : list EmailResult.t :=
  unique_from ∅ all_emails.

(** The loop over [results]: exceptions are skipped, lists are extended. *)
Fixpoint all_emails_of (results : list ProviderOutcome)
  : list EmailResult.t :=
  match results with
  | [] => []
  | Discovered result :: rest => (result ++ all_emails_of rest)%list
  | ProviderFailed _ :: rest => all_emails_of rest
  end.

Section WithEnv.
Context {World : Type} (E : Env World).

Definition cache_key (request : EmailDiscoveryRequest.t) : string :=
  "discovery:" ++
  md5_hexdigest E
    (EmailDiscoveryRequest.domain request ++ ":" ++
     repr_list E (sorted (EmailDiscoveryRequest.methods request))).

(** [asyncio.gather] with [return_exceptions=True]: one outcome per task,
    in task order. The tasks run concurrently; the embedding fixes the
    schedule in which they run one after the other, which is one of the
    possible ones and yields the results in the same order. *)
Fixpoint gather (domain : string) (methods_used : list string)
  : Act (World := World) (list ProviderOutcome) :=
  match methods_used with
  | [] => ret []
  | method :: rest =>
      do result <- ask (fun w => provider_discover E w method domain);
      run emit (EvProvider method domain result);
      do results <- gather domain rest;
      ret (result :: results)
  end.

(** The endpoint. A cached value of the other endpoint's shape makes the
    construction of [EmailDiscoveryResponse] from [cached_result] raise
    before the [try] block is entered; inside the block nothing of the embedding can raise, so its
    generic handler (HTTP 500) has no counterpart here. *)
Definition discover_emails (request : EmailDiscoveryRequest.t)
    (api_key : string)
  : Act (World := World) (HTTPResult EmailDiscoveryResponse.t) :=
  do limited <- check_rate_limit E api_key;
  match limited with
  | Some (status_code, detail) => ret (HTTPException status_code detail)
  | None =>
      do cached_result <- cache_get E (cache_key request);
      match cached_result with
      | Some (CDiscovery d) => ret (Ok d)
      | Some (CValidation _) => ret Unhandled
      | None =>
          let methods_used :=
            List.filter (selectable (settings E))
                        (EmailDiscoveryRequest.methods request) in
          match methods_used with
          | [] =>
              ret (HTTPException 400 "No valid discovery methods available")
          | _ =>
              do results <-
                gather (EmailDiscoveryRequest.domain request) methods_used;
              let unique := unique_emails (all_emails_of results) in
              let response_data :=
                {| EmailDiscoveryResponse.domain :=
                     EmailDiscoveryRequest.domain request;
                   EmailDiscoveryResponse.emails := unique;
                   EmailDiscoveryResponse.total_found := length unique;
                   EmailDiscoveryResponse.cached := false;
                   EmailDiscoveryResponse.methods_used := methods_used |} in
              run cache_set E (cache_key request) (CDiscovery response_data)
                            None;
              ret (Ok response_data)
          end
      end
  end.

End WithEnv.
End Discovery.

(* ===================================================================== *)
(** ** app/api/v1/validation.py *)

Module Validation.

(** [dns_result.details.get("mx_records", []) if dns_result.details else []];
    the DNS validator only ever stores a list under that key. *)
Definition mx_records_of (dns_result : ValidationResult.t) : list string :=
  match ValidationResult.details dns_result with
  | Some d =>
      match d !! "mx_records" with
      | Some (DList l) => l
      | _ => []
      end
  | None => []
  end.

Section WithEnv.
Context {World : Type} (E : Env World).

Definition cache_key (request : EmailValidationRequest.t) : string :=
  "validation:" ++
  md5_hexdigest E
    (EmailValidationRequest.email request ++ ":" ++
     Level_str (EmailValidationRequest.validation_level request)).

(** What the [try] block has accumulated when it reaches [min]. *)
Record Stages := {
  validation_results : gmap string ValidationResult.t;
  overall_valid : bool;
  risk_score : float
}.

(** The three stages of the [try] block of [validate_email]. *)
Definition run_stages (request : EmailValidationRequest.t)
  : Act (World := World) Stages :=
  let email := EmailValidationRequest.email request in
  let validation_results : gmap string ValidationResult.t := ∅ in
  let overall_valid := true in
  let risk_score := 0.0%float in
  (* 1. Syntax validation (always performed) *)
  let syntax_result := SyntaxValidator.validate E email in
  run emit (EvStage Syntax email syntax_result);
  let validation_results := <["syntax" := syntax_result]> validation_results in
  let '(overall_valid, risk_score) :=
    if negb (ValidationResult.valid syntax_result)
    then (false, (risk_score + 0.5)%float)
    else (overall_valid, risk_score) in
  (* 2. DNS validation (always performed) *)
  do dns_result <- DNSValidator.validate E email;
  run emit (EvStage DNS email dns_result);
  let validation_results := <["dns" := dns_result]> validation_results in
  let '(overall_valid, risk_score) :=
    if negb (ValidationResult.valid dns_result)
    then (false, (risk_score + 0.3)%float)
    else (overall_valid, risk_score) in
  (* 3. SMTP validation (only for advanced level) *)
  match EmailValidationRequest.validation_level request,
        ValidationResult.valid dns_result with
  | advanced, true =>
      let mx_records := mx_records_of dns_result in
      do smtp_result <- SMTPValidator.validate E email mx_records;
      run emit (EvStage SMTP email smtp_result);
      let validation_results :=
        <["smtp" := smtp_result]> validation_results in
      let '(overall_valid, risk_score) :=
        if negb (ValidationResult.valid smtp_result)
        then (false, (risk_score + 0.2)%float)
        else (overall_valid, risk_score) in
      ret {| validation_results := validation_results;
             overall_valid := overall_valid;
             risk_score := risk_score |}
  | _, _ =>
      ret {| validation_results := validation_results;
             overall_valid := overall_valid;
             risk_score := risk_score |}
  end.

(** The endpoint: admission, cache lookup, the stages, the clamp, the
    response and its caching. *)
Definition validate_email (request : EmailValidationRequest.t)
    (api_key : string)
  : Act (World := World) (HTTPResult EmailValidationResponse.t) :=
  do limited <- check_rate_limit E api_key;
  match limited with
  | Some (status_code, detail) => ret (HTTPException status_code detail)
  | None =>
      do cached_result <- cache_get E (cache_key request);
      match cached_result with
      | Some (CValidation v) => ret (Ok v)
      | Some (CDiscovery _) => ret Unhandled
      | None =>
          do st <- run_stages request;
          let risk_score := Py.min (risk_score st) 1.0%float in
          let response_data :=
            {| EmailValidationResponse.email :=
                 EmailValidationRequest.email request;
               EmailValidationResponse.valid := overall_valid st;
               EmailValidationResponse.validation_results :=
                 if EmailValidationRequest.detailed request
                 then Some (validation_results st) else None;
               EmailValidationResponse.risk_score := risk_score;
               EmailValidationResponse.cached := false |} in
          run cache_set E (cache_key request) (CValidation response_data) None;
          ret (Ok response_data)
      end
  end.

End WithEnv.
End Validation.

(* ===================================================================== *)
(** * Vocabulary of the properties *)

(** ** Rate limiter *)

(** The instants on record for an identity. *)
Definition recorded (key : string) (reqs : gmap string (list Q)) : list Q :=
  default [] (reqs !! key).

(** The instants of [l] still inside the window that ends at [now]. *)
Definition prune (now : Q) (l : list Q) : list Q :=
  List.filter (fun t => APIKeyRateLimiter.Qgtb t (now - 60)%Q) l.

(** Successive calls of [is_allowed] for one identity, at the given clock
    readings. *)
Fixpoint calls (st : Settings) (key : string) (ts : list Q)
    (reqs : gmap string (list Q)) : list bool * gmap string (list Q) :=
  match ts with
  | [] => ([], reqs)
  | t :: ts' =>
      let '(ok, reqs1) := APIKeyRateLimiter.is_allowed st t key reqs in
      let '(oks, reqs2) := calls st key ts' reqs1 in
      (ok :: oks, reqs2)
  end.

(** Any two instants of [l] are less than 60 seconds apart. *)
Definition within_60s (l : list Q) : Prop :=
  forall a b, In a l -> In b l -> (b - 60 < a)%Q.

(** Ten calls one second apart, an eleventh one second later, and a call
    sixty seconds after the first. *)
Definition ten_instants : list Q := map inject_Z [1; 2; 3; 4; 5; 6; 7; 8; 9; 10].

(** ** Cache *)

(** The durable store was unreachable during a call: the client raised. *)
Definition unreachable {A} (r : RedisOutcome A) : Prop :=
  match r with Raised _ => True | _ => False end.

(** The durable write of a [set] did not succeed. *)
Definition write_fell_back (r : RedisOutcome unit) : Prop :=
  match r with Replied _ => False | _ => True end.

(** The durable read of a [get] produced no value. *)
Definition read_fell_back {V} (r : RedisOutcome (option V)) : Prop :=
  match r with Replied (Some _) => False | _ => True end.

(** A [get] that follows a [set] of the same key in the same process, before
    the entry written by the [set] expires, returns the value written.
    [on_set] and [on_get] are what the durable store did during the two
    calls; the clock readings are those of [set] ([now]), of its sweep
    ([now_clean]) and of [get] ([t_get]). *)
Definition read_your_write {V} (on_set : RedisOutcome unit)
    (on_get : RedisOutcome (option V)) : Prop :=
  forall (st : Settings) (key : string) (value : V) (ttl : option Z)
         (now now_clean t_get : Z) (memory_cache : gmap string (V * Z)),
    now <= now_clean <= t_get ->
    t_get < now + CacheManager.timedelta_seconds
                    (Py.int_or ttl (cache_ttl_seconds st)) ->
    fst (CacheManager.get on_get t_get key
           (snd (CacheManager.set st on_set now now_clean key value ttl
                   memory_cache)))
    = Some value.

(** C6 as the specification states it: unreachable during the [set], during
    the [get], or during both. *)
Definition read_your_write_claim (V : Type) : Prop :=
  forall (on_set : RedisOutcome unit) (on_get : RedisOutcome (option V)),
    unreachable on_set \/ unreachable on_get ->
    read_your_write on_set on_get.

(** ** Validation pipeline *)

(** The risk score in the words of the specification: 0.0 baseline, +0.5
    if syntax invalid, +0.3 if DNS invalid, +0.2 if SMTP invalid (a stage
    that did not run is not a failed stage), clamped to at most 1.0. *)
Definition spec_risk_score (syntax_failed dns_failed smtp_failed : bool)
  : float :=
  let total :=
    (0.0 + (if syntax_failed then 0.5 else 0.0)
         + (if dns_failed then 0.3 else 0.0)
         + (if smtp_failed then 0.2 else 0.0))%float in
  if PrimFloat.ltb 1.0%float total then 1.0%float else total.

Section ValidationVocabulary.
Context {World : Type} (E : Env World).

(** The state in which the stages start when the call is admitted and
    misses the cache. *)
Definition validation_start (request : EmailValidationRequest.t)
    (api_key : string) (s : Proc World) : Proc World :=
  snd (cache_get E (Validation.cache_key E request)
         (snd (check_rate_limit E api_key s))).

(** A validation run: the call is admitted by the rate limiter and is not
    answered from the cache, so the stages are executed. *)
Definition validation_runs (request : EmailValidationRequest.t)
    (api_key : string) (s : Proc World) : Prop :=
  fst (check_rate_limit E api_key s) = None /\
  fst (cache_get E (Validation.cache_key E request)
         (snd (check_rate_limit E api_key s))) = None.

(** What the stages of that run produce. *)
Definition stages_of (request : EmailValidationRequest.t)
    (api_key : string) (s : Proc World) : Validation.Stages :=
  fst (Validation.run_stages E request (validation_start request api_key s)).

End ValidationVocabulary.

(** The outcome recorded for a stage, if the stage ran. *)
Definition outcome (st : Validation.Stages) (stage : Stage)
  : option ValidationResult.t :=
  Validation.validation_results st !! Stage_key stage.

(** The stage ran and its outcome is invalid. *)
Definition failed (st : Validation.Stages) (stage : Stage) : bool :=
  match outcome st stage with
  | Some r => negb (ValidationResult.valid r)
  | None => false
  end.

(** The [error_type] detail code of an outcome. *)
Definition error_type (r : ValidationResult.t) : option DetailValue :=
  ValidationResult.details r ≫= (fun d => d !! "error_type").

(** The score accumulated by the three [risk_score += ...] statements. *)
Definition accumulated_risk (syntax_failed dns_failed smtp_failed : bool)
  : float :=
  let r := 0.0%float in
  let r := if syntax_failed then (r + 0.5)%float else r in
  let r := if dns_failed then (r + 0.3)%float else r in
  if smtp_failed then (r + 0.2)%float else r.

(** *** Concrete worlds for the examples

    The world is a counter of the interactions so far; both clocks read it
    (one second per interaction). No Redis client is reachable, the syntax
    library accepts every address that contains exactly one at-sign (the
    syntax stage then fails on the read of [local]), and the blocklist
    download fails. *)
Definition example_env (st : Settings)
    (resolver : string -> RdType -> ResolveOutcome)
    (sessions : string -> string -> Session)
    (backends : string -> string -> ProviderOutcome) : Env nat := {|
  settings := st;
  time_time := fun w => (inject_Z (Z.of_nat w), S w);
  datetime_now := fun w => (Z.of_nat w * 1000000, S w);
  redis_get := fun w _ => (inl "connection refused", S w);
  redis_setex := fun w _ _ _ => (inl "connection refused", S w);
  provider_discover := fun w method domain => (backends method domain, S w);
  email_validator := fun e =>
    match Py.split "@" e with
    | [local_part; domain] =>
        Validated
          {| ValidatedEmail.email := e;
             ValidatedEmail.local_part := local_part;
             ValidatedEmail.domain := domain;
             ValidatedEmail.attribute_error := fun name =>
               "'ValidatedEmail' object has no attribute '" ++ name ++ "'" |}
    | _ => EmailNotValidError "An email address must have an @-sign."
    end;
  resolve := fun w domain rd => (resolver domain rd, S w);
  smtp_session := fun w mx_record rcpt => (sessions mx_record rcpt, S w);
  random_draws := fun w => (fun i => (7 * i + w)%nat, S w);
  http_get := fun w _ => (HttpFailed "offline", S w);
  md5_hexdigest := fun s => s;
  repr_list := fun l => "[" ++ String.concat ", " l ++ "]"
|}.

(** A process that has just started. *)
Definition fresh_process : Proc nat := {|
  world := 0%nat;
  trace := [];
  redis_client := false;
  memory_cache := ∅;
  requests := ∅;
  disposable_domains := ∅;
  last_update := None;
  fallback_domains := {[ "mailinator.com" ]}
|}.

(** A resolver that knows no domain. *)
Definition resolver_nxdomain : string -> RdType -> ResolveOutcome :=
  fun _ _ => NXDOMAIN.

(** A resolver that knows every domain, with one mail exchanger. *)
Definition resolver_one_mx : string -> RdType -> ResolveOutcome :=
  fun domain rd =>
    match rd with
    | A_record => Answer ["192.0.2.1"]
    | MX_record => Answer ["mx." ++ domain ++ "."]
    end.

(** A mail exchanger that answers [code] to every RCPT TO. *)
Definition session_rcpt (code : Z) : Session := {|
  connect := Returns tt;
  helo := Returns tt;
  has_extn_VRFY := false;
  verify := Returns 252;
  mail := Returns tt;
  rcpt := Returns code;
  quit := Returns tt
|}.

Definition no_backend : string -> string -> ProviderOutcome :=
  fun _ _ => Discovered [].

(** The request of the specification's example. *)
Definition nonexistent_request (detailed : bool) : EmailValidationRequest.t :=
  {| EmailValidationRequest.email := "user@nonexistent-tld-xyz123.test";
     EmailValidationRequest.validation_level := basic;
     EmailValidationRequest.detailed := detailed |}.

(** A request for an address whose domain the example resolvers know. *)
Definition example_org_request (level : Level) (detailed : bool)
  : EmailValidationRequest.t :=
  {| EmailValidationRequest.email := "alice@example.org";
     EmailValidationRequest.validation_level := level;
     EmailValidationRequest.detailed := detailed |}.

(** ** Traces *)

(** Every run of [m] only appends events that satisfy [P] to the trace. *)
Definition emits_only {World A} (P : Event -> Prop)
    (m : Act (World := World) A) : Prop :=
  forall s, exists evs,
    trace (snd (m s)) = (trace s ++ evs)%list /\ Forall P evs.

Definition is_stage_event (e : Event) : Prop :=
  match e with EvStage _ _ _ => True | _ => False end.

Definition is_provider_event (e : Event) : Prop :=
  match e with EvProvider _ _ _ => True | _ => False end.

Definition is_probe_event (e : Event) : Prop :=
  match e with EvSmtpProbe _ _ _ => True | _ => False end.

Definition is_cache_write (e : Event) : Prop :=
  match e with EvRedisSetex _ _ _ | EvMemorySet _ _ => True | _ => False end.

(** Events of the cache lookup, of the DNS resolver and of the blocklist
    download: none of them is a stage, a provider call, a probe or a cache
    write. *)
Definition is_lookup_event (e : Event) : Prop :=
  match e with
  | EvRedisGet _ | EvResolve _ _ | EvHttpGet _ => True
  | _ => False
  end.

(** The stages executed, with their outcomes, in order. *)
Definition stages_executed (evs : list Event)
  : list (Stage * ValidationResult.t) :=
  omap (fun e => match e with
                 | EvStage st _ r => Some (st, r)
                 | _ => None
                 end) evs.

(** The SMTP probes performed: host, recipient, accepted or not. *)
Definition probes (evs : list Event) : list (string * string * bool) :=
  omap (fun e => match e with
                 | EvSmtpProbe mx_record rcpt ok => Some (mx_record, rcpt, ok)
                 | _ => None
                 end) evs.

(** The discovery providers invoked, with what each returned. *)
Definition invocations (evs : list Event) : list (string * ProviderOutcome) :=
  omap (fun e => match e with
                 | EvProvider method _ outcome => Some (method, outcome)
                 | _ => None
                 end) evs.

(** The cache writes performed. *)
Definition cache_writes (evs : list Event) : list (string * CacheVal) :=
  omap (fun e => match e with
                 | EvRedisSetex key _ value => Some (key, value)
                 | EvMemorySet key value => Some (key, value)
                 | _ => None
                 end) evs.

(** ** SMTP prober *)

(** A character of [string.ascii_lowercase + string.digits]. *)
Definition alphanumeric (c : ascii) : Prop :=
  In c (Py.ascii_lowercase ++ Py.digits)%list.

(** The probes of [email] at the hosts [hosts], all rejected. *)
Definition rejected_probes (email : string) (hosts : list string)
  : list (string * string * bool) :=
  map (fun mx_record => (mx_record, email, false)) hosts.

(** What the probes of the real address at a list of hosts amount to. *)
Definition mailbox_search (email domain : string) (mx_records : list string)
    (r : ValidationResult.t) (evs : list Event) : Prop :=
  (ValidationResult.valid r = false /\
   probes evs = rejected_probes email mx_records) \/
  (ValidationResult.valid r = true /\
   exists rejected_hosts mx_record later_hosts username forged_ok,
     mx_records = (rejected_hosts ++ mx_record :: later_hosts)%list /\
     probes evs =
       (rejected_probes email rejected_hosts ++
        [(mx_record, email, true);
         (mx_record, (username ++ "@" ++ domain)%string, forged_ok)])%list /\
     String.length username = 10%nat /\
     Forall alphanumeric (list_ascii_of_string username) /\
     ValidationResult.is_catch_all r = Some forged_ok).

(** ** Discovery orchestrator *)

Section DiscoveryVocabulary.
Context {World : Type} (E : Env World).

(** The state in which the orchestration starts when the call is admitted
    and misses the cache. *)
Definition discovery_start (request : EmailDiscoveryRequest.t)
    (api_key : string) (s : Proc World) : Proc World :=
  snd (cache_get E (Discovery.cache_key E request)
         (snd (check_rate_limit E api_key s))).

(** A discovery run: the call is admitted by the rate limiter and is not
    answered from the cache. *)
Definition discovery_runs (request : EmailDiscoveryRequest.t)
    (api_key : string) (s : Proc World) : Prop :=
  fst (check_rate_limit E api_key s) = None /\
  fst (cache_get E (Discovery.cache_key E request)
         (snd (check_rate_limit E api_key s))) = None.

(** The requested methods whose provider exists and reports
    [is_available() = True], in request order. *)
Definition selected (request : EmailDiscoveryRequest.t) : list string :=
  List.filter (Discovery.selectable (settings E))
              (EmailDiscoveryRequest.methods request).

End DiscoveryVocabulary.

(** The candidates returned by the providers invoked, concatenated in
    invocation order. *)
Definition candidates (evs : list Event) : list EmailResult.t :=
  Discovery.all_emails_of (map snd (invocations evs)).

Definition addresses (l : list EmailResult.t) : list string :=
  map EmailResult.email l.

(** [e] is the first candidate of [l] with its address. *)
Definition first_with_address (e : EmailResult.t) (l : list EmailResult.t)
  : Prop :=
  exists before after,
    l = (before ++ e :: after)%list /\
    EmailResult.email e ∉ addresses before.

(** The events of the calls to the providers [methods] with the outcomes
    [results]. *)
Definition provider_events (domain : string) (methods : list string)
    (results : list ProviderOutcome) : list Event :=
  map (fun mr => EvProvider (fst mr) domain (snd mr)) (combine methods results).

(** The response assembled from the outcomes of the providers. *)
Definition response_of (request : EmailDiscoveryRequest.t)
    (methods_used : list string) (results : list ProviderOutcome)
  : EmailDiscoveryResponse.t :=
  let unique := Discovery.unique_emails (Discovery.all_emails_of results) in
  {| EmailDiscoveryResponse.domain := EmailDiscoveryRequest.domain request;
     EmailDiscoveryResponse.emails := unique;
     EmailDiscoveryResponse.total_found := length unique;
     EmailDiscoveryResponse.cached := false;
     EmailDiscoveryResponse.methods_used := methods_used |}.

(** *** Concrete worlds for the discovery examples *)

(** The example world with a reachable durable store that holds [stored]
    and accepts every write. *)
Definition example_env_redis (st : Settings)
    (stored : string -> option CacheVal)
    (backends : string -> string -> ProviderOutcome) : Env nat :=
  let E0 := example_env st resolver_nxdomain (fun _ _ => session_rcpt 250)
              backends in
  {| settings := settings E0;
     time_time := time_time E0;
     datetime_now := datetime_now E0;
     redis_get := fun w key => (inr (stored key), S w);
     redis_setex := fun w _ _ _ => (inr tt, S w);
     provider_discover := provider_discover E0;
     email_validator := email_validator E0;
     resolve := resolve E0;
     smtp_session := smtp_session E0;
     random_draws := random_draws E0;
     http_get := http_get E0;
     md5_hexdigest := md5_hexdigest E0;
     repr_list := repr_list E0 |}.

(** A process whose cache manager has a Redis client. *)
Definition process_with_redis : Proc nat := {|
  world := 0%nat;
  trace := [];
  redis_client := true;
  memory_cache := ∅;
  requests := ∅;
  disposable_domains := ∅;
  last_update := None;
  fallback_domains := {[ "mailinator.com" ]}
|}.

(** A process in which ["key-1"] has used up its ten requests. *)
Definition saturated_process : Proc nat := {|
  world := 0%nat;
  trace := [];
  redis_client := false;
  memory_cache := ∅;
  requests := {[ "key-1" := repeat (inject_Z 0) 10 ]};
  disposable_domains := ∅;
  last_update := None;
  fallback_domains := {[ "mailinator.com" ]}
|}.

(** A request for the one method that the default settings disable. *)
Definition third_party_request : EmailDiscoveryRequest.t :=
  {| EmailDiscoveryRequest.domain := "example.org";
     EmailDiscoveryRequest.methods := ["third_party"];
     EmailDiscoveryRequest.detailed := true |}.

(** What another deployment, with the method enabled, left in the store. *)
Definition stored_response : EmailDiscoveryResponse.t :=
  {| EmailDiscoveryResponse.domain := "example.org";
     EmailDiscoveryResponse.emails :=
       [ {| EmailResult.email := "sales@example.org";
            EmailResult.source := "hunter_io";
            EmailResult.confidence := 0.9%float;
            EmailResult.found_at := None |} ];
     EmailDiscoveryResponse.total_found := 1;
     EmailDiscoveryResponse.cached := false;
     EmailDiscoveryResponse.methods_used := ["third_party"] |}.

(** Two providers that return the same address with different
    confidences; a third one that raises. *)
Definition scraped : EmailResult.t :=
  {| EmailResult.email := "info@example.org";
     EmailResult.source := "web_scraping";
     EmailResult.confidence := 0.3%float;
     EmailResult.found_at := Some "https://example.org/contact" |}.

Definition guessed : EmailResult.t :=
  {| EmailResult.email := "info@example.org";
     EmailResult.source := "common_pattern";
     EmailResult.confidence := 0.9%float;
     EmailResult.found_at := None |}.

Definition two_backends : string -> string -> ProviderOutcome :=
  fun method _ =>
    if String.eqb method "scraping" then Discovered [scraped]
    else if String.eqb method "patterns" then Discovered [guessed]
    else ProviderFailed "connection reset".

Definition overlapping_request : EmailDiscoveryRequest.t :=
  {| EmailDiscoveryRequest.domain := "example.org";
     EmailDiscoveryRequest.methods := ["scraping"; "whois"; "patterns"];
     EmailDiscoveryRequest.detailed := true |}.

(* ===================================================================== *)
(** * Further properties of the code: vocabulary *)

(** ** Rate limiter *)

(** The instants of the calls that were accepted. *)
Fixpoint accepted_instants (ts : list Q) (oks : list bool) : list Q :=
  match ts, oks with
  | t :: ts', ok :: oks' =>
      if ok then t :: accepted_instants ts' oks'
      else accepted_instants ts' oks'
  | _, _ => []
  end.

(** [a] lies in the window of 60 seconds that ends at [t]. *)
Definition in_window (t a : Q) : bool :=
  (APIKeyRateLimiter.Qgtb a (t - 60)%Q && Qle_bool a t)%bool.

(** The clock readings never go back. *)
Fixpoint nondecreasing (ts : list Q) : Prop :=
  match ts with
  | [] => True
  | t :: ts' => (forall u, In u ts' -> (t <= u)%Q) /\ nondecreasing ts'
  end.

(** ** Cache *)

(** The expiry instant that [set] gives an entry written at [now]. *)
Definition expiry_of (st : Settings) (now : Z) (ttl : option Z) : Z :=
  now + CacheManager.timedelta_seconds (Py.int_or ttl (cache_ttl_seconds st)).

(** A map of 1001 entries that all expire at instant 5. *)
Definition crowded_cache : gmap string (nat * Z) :=
  list_to_map
    (map (fun i => (Py.str_int (Z.of_nat i), (i, 5))) (seq 0 1001)).

(* ===================================================================== *)
(** * Properties *)

(** ** Rate limiter *)

Section RateLimiter.
Import APIKeyRateLimiter.

Lemma Qgtb_true a b : Qgtb a b = true <-> (b < a)%Q.
Proof.
  unfold Qgtb. rewrite negb_true_iff, <- not_true_iff_false, Qle_bool_iff.
  split; [apply Qnot_le_lt | apply Qlt_not_le].
Qed.

Lemma is_allowed_eq st now key reqs :
  is_allowed st now key reqs =
    if Z.of_nat (length (prune now (recorded key reqs)))
         >=? rate_limit_per_minute st
    then (false, <[key := prune now (recorded key reqs)]> reqs)
    else (true,
          <[key := (prune now (recorded key reqs) ++ [now])%list]> reqs).
Proof.
  unfold is_allowed, recorded, prune.
  destruct (reqs !! key) as [l|] eqn:Hl; simpl.
  - rewrite Hl; simpl. rewrite insert_insert_eq. reflexivity.
  - rewrite lookup_insert_eq; simpl. rewrite !insert_insert_eq. reflexivity.
Qed.

Lemma recorded_insert key l reqs : recorded key (<[key := l]> reqs) = l.
Proof. unfold recorded. rewrite lookup_insert_eq. reflexivity. Qed.

Lemma In_prune now l t : In t (prune now l) <-> In t l /\ (now - 60 < t)%Q.
Proof. unfold prune. rewrite filter_In, Qgtb_true. reflexivity. Qed.

Lemma prune_all now l :
  (forall t, In t l -> (now - 60 < t)%Q) -> prune now l = l.
Proof.
  induction l as [|a l IH]; intros H; simpl; [reflexivity|].
  assert (Ha : Qgtb a (now - 60)%Q = true) by (apply Qgtb_true, H; now left).
  rewrite Ha. f_equal. apply IH. intros t Ht. apply H. now right.
Qed.

Lemma prune_length now l : (length (prune now l) <= length l)%nat.
Proof. apply List.filter_length_le. Qed.

Lemma calls_all_accepted st key ts : forall reqs,
  within_60s (recorded key reqs ++ ts) ->
  Z.of_nat (length (recorded key reqs ++ ts)) <= rate_limit_per_minute st ->
  fst (calls st key ts reqs) = repeat true (length ts) /\
  recorded key (snd (calls st key ts reqs)) = (recorded key reqs ++ ts)%list.
Proof.
  induction ts as [|t ts IH]; intros reqs Hw Hn; simpl.
  - rewrite app_nil_r. split; reflexivity.
  - rewrite is_allowed_eq.
    assert (Hp : prune t (recorded key reqs) = recorded key reqs).
    { apply prune_all. intros a Ha. apply Hw; apply in_or_app; [now left|].
      right. now left. }
    rewrite Hp.
    rewrite length_app in Hn. simpl in Hn.
    destruct (Z.geb_spec (Z.of_nat (length (recorded key reqs)))
                (rate_limit_per_minute st)) as [Hge|Hlt]; [lia|].
    set (reqs1 := <[key := (recorded key reqs ++ [t])%list]> reqs).
    assert (Hr1 : recorded key reqs1 = (recorded key reqs ++ [t])%list)
      by apply recorded_insert.
    destruct (IH reqs1) as [IH1 IH2].
    + rewrite Hr1, <- app_assoc. exact Hw.
    + rewrite Hr1, <- app_assoc, length_app. simpl. lia.
    + destruct (calls st key ts reqs1) as [oks reqs2]; simpl in *.
      rewrite IH1, IH2, Hr1, <- app_assoc. split; reflexivity.
Qed.

(** C7. [is_allowed] keeps, of the instants recorded for the identity,
    exactly those younger than 60 seconds (anything 60 seconds old or older
    is dropped), leaves every other identity untouched, answers [False]
    without recording [now] when the instants kept reach the per-minute
    ceiling, and otherwise appends [now] and answers [True]. With a ceiling
    of 10 and an identity with nothing on record, ten calls less than 60
    seconds apart are all accepted, the eleventh call inside the same
    window is rejected and leaves the ten instants on record, and a later
    call is accepted as soon as the oldest of them is 60 seconds old. *)
Theorem is_allowed_sliding_window :
  (forall st now key reqs,
     let kept := prune now (recorded key reqs) in
     let res := is_allowed st now key reqs in
     (forall t, In t kept <-> In t (recorded key reqs) /\ (now - 60 < t)%Q) /\
     (forall k, k <> key -> snd res !! k = reqs !! k) /\
     (rate_limit_per_minute st <= Z.of_nat (length kept) ->
        fst res = false /\ recorded key (snd res) = kept) /\
     (Z.of_nat (length kept) < rate_limit_per_minute st ->
        fst res = true /\ recorded key (snd res) = (kept ++ [now])%list)) /\
  (forall st key reqs ts t11,
     rate_limit_per_minute st = 10 ->
     recorded key reqs = [] ->
     length ts = 10%nat ->
     within_60s (ts ++ [t11]) ->
     let first10 := calls st key ts reqs in
     let eleventh := is_allowed st t11 key (snd first10) in
     fst first10 = repeat true 10 /\
     fst eleventh = false /\
     recorded key (snd eleventh) = ts /\
     forall oldest rest t_later,
       ts = oldest :: rest ->
       (oldest <= t_later - 60)%Q ->
       fst (is_allowed st t_later key (snd eleventh)) = true).
Proof.
  split.
  - intros st now key reqs kept res. subst kept res.
    rewrite is_allowed_eq.
    split; [intros t; apply In_prune|].
    destruct (Z.geb_spec (Z.of_nat (length (prune now (recorded key reqs))))
                (rate_limit_per_minute st)) as [Hge|Hlt]; simpl.
    + split; [intros k Hk; now rewrite lookup_insert_ne|].
      split; [intros _; split; [reflexivity|apply recorded_insert]|lia].
    + split; [intros k Hk; now rewrite lookup_insert_ne|].
      split; [lia|intros _; split; [reflexivity|apply recorded_insert]].
  - intros st key reqs ts t11 Hlim Hrec Hlen Hw first10 eleventh.
    destruct (calls_all_accepted st key ts reqs) as [Hoks Hrec10].
    { rewrite Hrec. simpl. intros a b Ha Hb. apply Hw; apply in_or_app; now left. }
    { rewrite Hrec. simpl. lia. }
    rewrite Hrec in Hrec10; simpl in Hrec10.
    assert (Hp : prune t11 ts = ts).
    { apply prune_all. intros a Ha. apply Hw; apply in_or_app; [now left|].
      right; now left. }
    subst eleventh first10.
    rewrite is_allowed_eq, Hrec10, Hp, Hlen, Hlim. simpl.
    rewrite recorded_insert.
    split; [rewrite Hoks, Hlen; reflexivity|].
    split; [reflexivity|]. split; [reflexivity|].
    intros oldest rest t_later Hts Hold.
    rewrite is_allowed_eq, recorded_insert, Hlim.
    assert (Hlt : (length (prune t_later ts) < 10)%nat).
    { rewrite Hts. simpl.
      assert (Hd : Qgtb oldest (t_later - 60)%Q = false).
      { apply not_true_iff_false. rewrite Qgtb_true. now apply Qle_not_lt. }
      rewrite Hd. pose proof (prune_length t_later rest) as Hl.
      rewrite Hts in Hlen. simpl in Hlen. lia. }
    destruct (Z.geb_spec (Z.of_nat (length (prune t_later ts))) 10); [lia|].
    reflexivity.
Qed.
End RateLimiter.

Lemma is_allowed_sliding_window_witness :
  let first10 := calls default_settings "key-1" ten_instants ∅ in
  let eleventh :=
    APIKeyRateLimiter.is_allowed default_settings (inject_Z 11) "key-1"
      (snd first10) in
  fst first10 = repeat true 10 /\
  fst eleventh = false /\
  fst (APIKeyRateLimiter.is_allowed default_settings (inject_Z 61) "key-1"
         (snd eleventh)) = true.
Proof.
  destruct is_allowed_sliding_window as [_ H].
  destruct (H default_settings "key-1" ∅ ten_instants (inject_Z 11))
    as (H1 & H2 & _ & H4).
  - reflexivity.
  - vm_compute. reflexivity.
  - reflexivity.
  - intros a b Ha Hb. simpl in Ha, Hb.
    repeat (destruct Ha as [<-|Ha]; [|]); try contradiction;
    repeat (destruct Hb as [<-|Hb]; [|]); try contradiction; reflexivity.
  - split; [exact H1|]. split; [exact H2|].
    apply (H4 (inject_Z 1) (map inject_Z [2; 3; 4; 5; 6; 7; 8; 9; 10]));
      [reflexivity|discriminate].
Defined.

(** ** Cache *)

Section Cache.
Context {V : Type}.

Lemma lookup_after_fallback_set st on_set now now_clean key (value : V) ttl
    (memory_cache : gmap string (V * Z)) :
  write_fell_back on_set ->
  let expiry := now + CacheManager.timedelta_seconds
                        (Py.int_or ttl (cache_ttl_seconds st)) in
  now_clean < expiry ->
  snd (CacheManager.set st on_set now now_clean key value ttl memory_cache)
    !! key = Some (value, expiry).
Proof.
  intros Hw expiry Hc. unfold CacheManager.set.
  assert (Hgoal :
    (if 1000 <? Z.of_nat (size (<[key := (value, expiry)]> memory_cache))
     then CacheManager._clean_expired now_clean
            (<[key := (value, expiry)]> memory_cache)
     else <[key := (value, expiry)]> memory_cache) !! key
    = Some (value, expiry)).
  { destruct (1000 <? _).
    - unfold CacheManager._clean_expired.
      apply map_lookup_filter_Some. split; [apply lookup_insert_eq|].
      simpl. lia.
    - apply lookup_insert_eq. }
  destruct on_set; simpl; try exact Hgoal. contradiction.
Qed.

(** C6 (amended). When the durable write of the [set] did not succeed (no
    client is configured, or the client raised) and the durable read of the
    [get] yields no value (no client, the client raised, or an empty
    reply), a [get] before the expiry returns the value written. *)
Theorem get_after_set_fallback (on_set : RedisOutcome unit)
    (on_get : RedisOutcome (option V)) :
  write_fell_back on_set ->
  read_fell_back on_get ->
  read_your_write on_set on_get.
Proof.
  intros Hw Hr st key value ttl now now_clean t_get memory_cache Hmono Hlive.
  pose proof (lookup_after_fallback_set st on_set now now_clean key value ttl
                memory_cache Hw) as Hl.
  simpl in Hl. specialize (Hl ltac:(lia)).
  assert (Hmem :
    forall m : gmap string (V * Z),
      m !! key = Some (value, now + CacheManager.timedelta_seconds
                                      (Py.int_or ttl (cache_ttl_seconds st))) ->
      fst (match m !! key with
           | Some (cached_data, expiry) =>
               if t_get <? expiry then (Some cached_data, m)
               else (None, delete key m)
           | None => (None, m)
           end) = Some value).
  { intros m Hm. rewrite Hm.
    destruct (Z.ltb_spec t_get
                (now + CacheManager.timedelta_seconds
                         (Py.int_or ttl (cache_ttl_seconds st)))); [reflexivity|lia]. }
  unfold CacheManager.get.
  destruct on_get as [|[v|]|msg]; simpl in Hr; try contradiction;
    apply Hmem, Hl.
Qed.

End Cache.

(** C6 (as stated) fails: a successful durable write is not mirrored in the
    process, so a [get] that finds the store unreachable sees nothing; and
    after a write that fell back to the process, a reachable store still
    answers with the value it held before. *)
Lemma read_your_write_claim_fails :
  ~ read_your_write_claim nat /\
  fst (CacheManager.get (Raised "connection refused") 1 "k"
         (snd (CacheManager.set default_settings (Replied tt) 0 0 "k" 7%nat
                 (Some 60) ∅)))
  = None /\
  fst (CacheManager.get (Replied (Some 5%nat)) 1 "k"
         (snd (CacheManager.set default_settings (Raised "connection refused")
                 0 0 "k" 7%nat (Some 60) ∅)))
  = Some 5%nat.
Proof.
  split; [|split; vm_compute; reflexivity].
  intros H.
  specialize (H (Replied tt) (Raised "connection refused") (or_intror I)
                default_settings "k" 7%nat (Some 60) 0 0 1 ∅).
  assert (Hn : fst (CacheManager.get (V := nat) (Raised "connection refused") 1 "k"
         (snd (CacheManager.set default_settings (Replied tt) 0 0 "k" 7%nat
                 (Some 60) ∅))) = None) by (vm_compute; reflexivity).
  rewrite Hn in H. 
  assert (Hc : None = Some 7%nat) by (apply H; [lia|vm_compute; reflexivity]).
  discriminate Hc.
Qed.

Lemma get_after_set_fallback_witness :
  fst (CacheManager.get (Raised "connection refused") 1 "k"
         (snd (CacheManager.set default_settings
                 (Raised "connection refused") 0 0 "k" 7%nat (Some 60) ∅)))
  = Some 7%nat.
Proof.
  apply (get_after_set_fallback (Raised "connection refused")
           (Raised "connection refused") I I default_settings "k" 7%nat
           (Some 60) 0 0 1 ∅).
  - lia.
  - vm_compute. reflexivity.
Defined.

(** ** Validation pipeline *)

#[local] Arguments SMTPValidator.validate : simpl never.
#[local] Arguments DNSValidator.validate : simpl never.
#[local] Arguments SyntaxValidator.validate : simpl never.

Section ValidationPipeline.
Context {World : Type} (E : Env World).

(** The syntax stage fails on every address: the library raises, or it
    returns an object on which the read of [local] raises. The detail code
    tells the two apart. *)
Lemma syntax_validate_fails email :
  let syn := SyntaxValidator.validate E email in
  ValidationResult.valid syn = false /\
  (error_type syn = Some (DStr "syntax_error") \/
   error_type syn = Some (DStr "validation_error")).
Proof.
  cbv zeta. unfold SyntaxValidator.validate.
  destruct (email_validator E email) as [validated_email|msg|msg];
    split; try reflexivity; auto.
Qed.

(** On a run, the endpoint answers with the accumulated stages. *)
Lemma validate_email_runs request api_key s :
  validation_runs E request api_key s ->
  let st := stages_of E request api_key s in
  fst (Validation.validate_email E request api_key s) =
    Ok {| EmailValidationResponse.email :=
            EmailValidationRequest.email request;
          EmailValidationResponse.valid := Validation.overall_valid st;
          EmailValidationResponse.validation_results :=
            if EmailValidationRequest.detailed request
            then Some (Validation.validation_results st) else None;
          EmailValidationResponse.risk_score :=
            Py.min (Validation.risk_score st) 1.0%float;
          EmailValidationResponse.cached := false |}.
Proof.
  intros [Hadm Hmiss]. unfold stages_of, validation_start.
  unfold Validation.validate_email, bind.
  destruct (check_rate_limit E api_key s) as [limited s1]. simpl in *.
  subst limited.
  destruct (cache_get E (Validation.cache_key E request) s1) as [c s2].
  simpl in *. subst c.
  destruct (Validation.run_stages E request s2) as [st s3]. simpl.
  destruct (cache_set E _ _ None s3) as [b s4]. reflexivity.
Qed.

(** [run_stages], stage by stage. *)
Lemma run_stages_eq request s :
  let email := EmailValidationRequest.email request in
  let syn := SyntaxValidator.validate E email in
  let s1 := snd (emit (EvStage Syntax email syn) s) in
  let dns := fst (DNSValidator.validate E email s1) in
  let s2 := snd (emit (EvStage DNS email dns)
                   (snd (DNSValidator.validate E email s1))) in
  let smtp :=
    fst (SMTPValidator.validate E email (Validation.mx_records_of dns) s2) in
  let risk1 :=
    if negb (ValidationResult.valid syn) then (0.0 + 0.5)%float
    else 0.0%float in
  let risk2 :=
    if negb (ValidationResult.valid dns) then (risk1 + 0.3)%float
    else risk1 in
  fst (Validation.run_stages E request s) =
    match EmailValidationRequest.validation_level request,
          ValidationResult.valid dns with
    | advanced, true =>
        {| Validation.validation_results :=
             <["smtp" := smtp]> (<["dns" := dns]> (<["syntax" := syn]> ∅));
           Validation.overall_valid :=
             (ValidationResult.valid syn && ValidationResult.valid dns &&
              ValidationResult.valid smtp)%bool;
           Validation.risk_score :=
             if negb (ValidationResult.valid smtp) then (risk2 + 0.2)%float
             else risk2 |}
    | _, _ =>
        {| Validation.validation_results :=
             <["dns" := dns]> (<["syntax" := syn]> ∅);
           Validation.overall_valid :=
             (ValidationResult.valid syn && ValidationResult.valid dns)%bool;
           Validation.risk_score := risk2 |}
    end.
Proof.
  cbv zeta.
  unfold Validation.run_stages, bind, emit, ret.
  destruct (ValidationResult.valid (SyntaxValidator.validate E _));
    simpl;
    match goal with
    | |- context [DNSValidator.validate E ?e ?st] =>
        destruct (DNSValidator.validate E e st) as [dns s2]
    end; simpl;
    destruct (ValidationResult.valid dns);
    destruct (EmailValidationRequest.validation_level request); simpl;
    try reflexivity;
    match goal with
    | |- context [SMTPValidator.validate E ?e ?m ?st] =>
        destruct (SMTPValidator.validate E e m st) as [smtp s3]
    end; simpl;
    destruct (ValidationResult.valid smtp); reflexivity.
Qed.

Lemma outcome_syntax m syn :
  (<["syntax" := syn]> m : gmap string ValidationResult.t) !! "syntax"
  = Some syn.
Proof. apply lookup_insert_eq. Qed.

(** What a run of the stages leaves behind: the syntax and DNS outcomes
    always, the SMTP outcome exactly when the level is advanced and the DNS
    outcome is valid. *)
Lemma run_stages_outcomes request s :
  let email := EmailValidationRequest.email request in
  let st := fst (Validation.run_stages E request s) in
  exists dns s1,
    dns = fst (DNSValidator.validate E email s1) /\
    outcome st Syntax = Some (SyntaxValidator.validate E email) /\
    outcome st DNS = Some dns /\
    ((EmailValidationRequest.validation_level request = advanced /\
      ValidationResult.valid dns = true /\
      exists smtp s2,
        smtp = fst (SMTPValidator.validate E email
                      (Validation.mx_records_of dns) s2) /\
        outcome st SMTP = Some smtp /\
        Validation.overall_valid st =
          (ValidationResult.valid (SyntaxValidator.validate E email) &&
           ValidationResult.valid dns && ValidationResult.valid smtp)%bool)
     \/
     ((EmailValidationRequest.validation_level request = basic \/
       ValidationResult.valid dns = false) /\
      outcome st SMTP = None /\
      Validation.overall_valid st =
        (ValidationResult.valid (SyntaxValidator.validate E email) &&
         ValidationResult.valid dns)%bool)) /\
    Validation.risk_score st =
      accumulated_risk (failed st Syntax) (failed st DNS) (failed st SMTP).
Proof.
  intros email st. subst st. rewrite run_stages_eq. cbv zeta. fold email.
  set (syn := SyntaxValidator.validate E email).
  set (s1 := snd (emit (EvStage Syntax email syn) s)).
  set (dns := fst (DNSValidator.validate E email s1)).
  exists dns, s1. split; [reflexivity|].
  unfold failed, outcome, accumulated_risk.
  destruct (EmailValidationRequest.validation_level request) eqn:Hlevel;
    destruct (ValidationResult.valid dns) eqn:Hdns; simpl;
    rewrite ?lookup_insert_eq, ?lookup_insert_ne, ?lookup_insert_eq,
            ?lookup_insert_ne, ?lookup_insert_eq, ?lookup_empty
      by discriminate;
    rewrite ?Hdns; simpl;
    (split; [reflexivity|]); (split; [reflexivity|]).
  - split; [right; auto|]. destruct (ValidationResult.valid syn); reflexivity.
  - split; [right; auto|]. destruct (ValidationResult.valid syn); reflexivity.
  - split.
    + left. split; [reflexivity|]. split; [reflexivity|].
      eexists _, _. split; [reflexivity|]. split; reflexivity.
    + destruct (ValidationResult.valid syn);
        destruct (ValidationResult.valid _); reflexivity.
  - split; [right; auto|]. destruct (ValidationResult.valid syn); reflexivity.
Qed.

Lemma min_accumulated_risk a b c :
  Py.min (accumulated_risk a b c) 1.0%float = spec_risk_score a b c.
Proof. destruct a, b, c; reflexivity. Qed.

Lemma spec_risk_score_monotone a b c a' b' c' :
  implb a a' = true -> implb b b' = true -> implb c c' = true ->
  PrimFloat.leb (spec_risk_score a b c) (spec_risk_score a' b' c') = true.
Proof.
  destruct a, a'; try discriminate; intros _;
    destruct b, b'; try discriminate; intros _;
    destruct c, c'; try discriminate; intros _; reflexivity.
Qed.

(** C2. On every validation run the returned [risk_score] is the sum of
    0.5 if the syntax stage failed, 0.3 if the DNS stage failed and 0.2 if
    the SMTP stage ran and failed, clamped to at most 1.0; it is 0.0 when
    every executed stage passes, at least 0.5 when the syntax stage fails,
    and the sum is non-decreasing in the set of failed stages. *)
Theorem risk_score_weights request api_key s :
  validation_runs E request api_key s ->
  let st := stages_of E request api_key s in
  exists response,
    fst (Validation.validate_email E request api_key s) = Ok response /\
    EmailValidationResponse.risk_score response =
      spec_risk_score (failed st Syntax) (failed st DNS) (failed st SMTP) /\
    (failed st Syntax = false -> failed st DNS = false ->
     failed st SMTP = false ->
     EmailValidationResponse.risk_score response = 0.0%float) /\
    (failed st Syntax = true ->
     PrimFloat.leb 0.5%float (EmailValidationResponse.risk_score response)
     = true) /\
    (forall a b c a' b' c',
       implb a a' = true -> implb b b' = true -> implb c c' = true ->
       PrimFloat.leb (spec_risk_score a b c) (spec_risk_score a' b' c')
       = true).
Proof.
  intros Hrun st. eexists. split; [apply validate_email_runs, Hrun|].
  fold st. simpl.
  destruct (run_stages_outcomes request (validation_start E request api_key s))
    as (dns & s1 & _ & _ & _ & _ & Hrisk).
  fold (stages_of E request api_key s) in Hrisk. fold st in Hrisk.
  rewrite Hrisk, min_accumulated_risk.
  split; [reflexivity|]. split; [|split].
  - intros -> -> ->. reflexivity.
  - intros ->. destruct (failed st DNS), (failed st SMTP); reflexivity.
  - apply spec_risk_score_monotone.
Qed.


(** A valid DNS outcome stores a non-empty [mx_records] list. *)
Lemma dns_valid_mx_records email s :
  let dns := fst (DNSValidator.validate E email s) in
  ValidationResult.valid dns = true ->
  exists d mx_list,
    ValidationResult.details dns = Some d /\
    d !! "mx_records" = Some (DList mx_list) /\
    mx_list <> [] /\
    Validation.mx_records_of dns = mx_list.
Proof.
  unfold DNSValidator.validate, DNSValidator.lookup, bind, emit, ask, ret.
  destruct (Py.getitem (Py.split "@" email) 1) as [domain|];
    [|simpl; discriminate].
  simpl.
  destruct (resolve E _ domain A_record) as [[records| | | |msg] w1]; simpl;
    try discriminate.
  destruct (resolve E _ domain MX_record) as [[exchanges| | | |msg] w2]; simpl;
    try discriminate.
  destruct (map (Py.rstrip ".") exchanges) as [|mx rest] eqn:Hmx; simpl;
    [discriminate|].
  intros _. eexists _, (mx :: rest).
  split; [reflexivity|]. split; [apply lookup_insert_eq|].
  split; [discriminate|].
  unfold Validation.mx_records_of. simpl. rewrite lookup_insert_eq.
  reflexivity.
Qed.

Lemma error_type_found mx_record result is_catch_all is_disposable :
  error_type (SMTPValidator.found mx_record result is_catch_all is_disposable)
  = None.
Proof.
  unfold error_type, SMTPValidator.found. simpl.
  rewrite !lookup_insert_ne by discriminate. apply lookup_empty.
Qed.

Lemma error_type_not_found msg code is_disposable :
  error_type (SMTPValidator.not_found msg code is_disposable)
  = Some (DStr code).
Proof. unfold error_type, SMTPValidator.not_found. simpl. apply lookup_insert_eq. Qed.

(** The loop over the MX hosts ends with a found mailbox or with
    [mailbox_not_found]. *)
Lemma try_mx_records_error_type email is_disposable mx_records : forall s,
  let r := fst (SMTPValidator.try_mx_records E email is_disposable
                  mx_records s) in
  error_type r = None \/ error_type r = Some (DStr "mailbox_not_found").
Proof.
  induction mx_records as [|mx rest IH]; intros s; simpl.
  - right. apply error_type_not_found.
  - unfold bind.
    destruct (SMTPValidator._check_mailbox_smtp E email mx s) as [result s1].
    destruct (fst (fst result)).
    + destruct (SMTPValidator._check_catch_all E email mx s1) as [c s2].
      left. apply error_type_found.
    + apply IH.
Qed.

Lemma smtp_validate_nonempty email mx_records s :
  mx_records <> [] ->
  error_type (fst (SMTPValidator.validate E email mx_records s))
  <> Some (DStr "no_mx_records").
Proof.
  intros Hne. unfold SMTPValidator.validate.
  destruct mx_records as [|mx rest]; [contradiction|].
  unfold bind.
  destruct (DisposableEmailDetector.is_disposable E email s) as [d s1].
  destruct (try_mx_records_error_type email d (mx :: rest) s1) as [H|H];
    cbv zeta in H; rewrite H; discriminate.
Qed.

(** C10. A DNS outcome with [valid = true] stores a non-empty [mx_records]
    list in its details, which is the list the pipeline hands to the SMTP
    validator; hence an SMTP outcome produced by the pipeline never carries
    the detail code [no_mx_records] of the empty-MX branch. *)
Theorem dns_valid_mx_records_nonempty :
  (forall email s,
     let dns := fst (DNSValidator.validate E email s) in
     ValidationResult.valid dns = true ->
     exists d mx_list,
       ValidationResult.details dns = Some d /\
       d !! "mx_records" = Some (DList mx_list) /\
       mx_list <> [] /\
       Validation.mx_records_of dns = mx_list) /\
  (forall request s smtp,
     outcome (fst (Validation.run_stages E request s)) SMTP = Some smtp ->
     error_type smtp <> Some (DStr "no_mx_records")).
Proof.
  split; [exact dns_valid_mx_records|].
  intros request s smtp Hsmtp.
  destruct (run_stages_outcomes request s)
    as (dns & s1 & Hdns & _ & _ & Hcases & _).
  destruct Hcases as [(_ & Hvalid & smtp' & s2 & Heq & Hout & _)|(_ & Hnone & _)].
  - rewrite Hout in Hsmtp. injection Hsmtp as <-. subst smtp'.
    apply smtp_validate_nonempty.
    subst dns.
    destruct (dns_valid_mx_records _ _ Hvalid) as (d & l & _ & _ & Hne & Hl).
    rewrite Hl. exact Hne.
  - rewrite Hnone in Hsmtp. discriminate.
Qed.

(** A resolver that reports the domain nonexistent makes the DNS stage
    fail with [domain_not_found]. *)
Lemma dns_domain_not_found email domain s :
  Py.getitem (Py.split "@" email) 1 = Some domain ->
  (forall w, fst (resolve E w domain A_record) = NXDOMAIN) ->
  fst (DNSValidator.validate E email s)
  = DNSValidator.failure "Domain does not exist" "domain_not_found".
Proof.
  intros Hdom Hnx.
  unfold DNSValidator.validate, DNSValidator.lookup, bind, emit, ask, ret.
  rewrite Hdom. simpl.
  match goal with
  | |- context [resolve E ?w domain A_record] =>
      specialize (Hnx w); destruct (resolve E w domain A_record) as [a w1]
  end.
  simpl in Hnx. subst a. reflexivity.
Qed.

(** C4. Validating [user@nonexistent-tld-xyz123.test] at level basic, with
    the resolver reporting the domain nonexistent, yields a DNS outcome with
    [valid = false] and detail code [domain_not_found], overall
    [valid = false] and [risk_score = 0.8]: the syntax stage fails as well,
    and 0.5 + 0.3 is 0.8. *)
Theorem nonexistent_domain_basic detailed api_key s :
  let request := nonexistent_request detailed in
  validation_runs E request api_key s ->
  (forall w,
     fst (resolve E w "nonexistent-tld-xyz123.test" A_record) = NXDOMAIN) ->
  let st := stages_of E request api_key s in
  exists response dns,
    fst (Validation.validate_email E request api_key s) = Ok response /\
    outcome st DNS = Some dns /\
    ValidationResult.valid dns = false /\
    error_type dns = Some (DStr "domain_not_found") /\
    EmailValidationResponse.valid response = false /\
    EmailValidationResponse.risk_score response = 0.8%float.
Proof.
  intros request Hrun Hnx st.
  destruct (run_stages_outcomes request (validation_start E request api_key s))
    as (dns & s1 & Hdns & Hsyn & Hout & Hcases & Hrisk).
  fold (stages_of E request api_key s) in Hsyn, Hout, Hcases, Hrisk.
  fold st in Hsyn, Hout, Hcases, Hrisk.
  rewrite (dns_domain_not_found _ "nonexistent-tld-xyz123.test") in Hdns
    by (reflexivity || exact Hnx).
  eexists _, dns. split; [apply validate_email_runs, Hrun|].
  fold st. simpl.
  split; [exact Hout|]. subst dns. split; [reflexivity|].
  split; [reflexivity|].
  destruct Hcases as [(Hlevel & _)|(_ & Hnone & Hov)]; [discriminate|].
  rewrite Hov, Hrisk. unfold failed. rewrite Hsyn, Hout, Hnone. simpl.
  split; [apply andb_false_r|].
  destruct (syntax_validate_fails "user@nonexistent-tld-xyz123.test")
    as [Hfails _].
  rewrite Hfails. reflexivity.
Qed.

End ValidationPipeline.

(** C2, on the example world: the syntax stage and the DNS stage fail. *)
Lemma risk_score_weights_witness :
  let E := example_env default_settings resolver_nxdomain
             (fun _ _ => session_rcpt 250) no_backend in
  validation_runs E (nonexistent_request true) "key-1" fresh_process /\
  exists response,
    fst (Validation.validate_email E (nonexistent_request true) "key-1"
           fresh_process) = Ok response /\
    EmailValidationResponse.risk_score response
    = spec_risk_score true true false.
Proof.
  intros E.
  assert (Hrun : validation_runs E (nonexistent_request true) "key-1"
                   fresh_process) by (split; vm_compute; reflexivity).
  split; [exact Hrun|].
  destruct (risk_score_weights E (nonexistent_request true) "key-1"
              fresh_process Hrun) as (response & Hok & Hrisk & _).
  exists response. split; [exact Hok|]. rewrite Hrisk.
  vm_compute. reflexivity.
Defined.

Lemma nonexistent_domain_basic_witness :
  let E := example_env default_settings resolver_nxdomain
             (fun _ _ => session_rcpt 250) no_backend in
  exists response,
    fst (Validation.validate_email E (nonexistent_request true) "key-1"
           fresh_process) = Ok response /\
    EmailValidationResponse.valid response = false /\
    EmailValidationResponse.risk_score response = 0.8%float.
Proof.
  intros E.
  destruct (nonexistent_domain_basic E true "key-1" fresh_process)
    as (response & dns & Hok & _ & _ & _ & Hvalid & Hrisk).
  - split; vm_compute; reflexivity.
  - intros w. reflexivity.
  - exists response. split; [exact Hok|]. split; [exact Hvalid|exact Hrisk].
Defined.


Lemma dns_valid_mx_records_nonempty_witness :
  let E := example_env default_settings resolver_one_mx
             (fun _ _ => session_rcpt 250) no_backend in
  let dns := fst (DNSValidator.validate E "alice@example.org" fresh_process) in
  Validation.mx_records_of dns = ["mx.example.org"] /\
  Validation.mx_records_of dns <> [].
Proof.
  intros E dns.
  destruct (proj1 (dns_valid_mx_records_nonempty E) "alice@example.org"
              fresh_process) as (d & l & _ & _ & Hne & Hl).
  - vm_compute. reflexivity.
  - fold dns in Hl. split; [vm_compute; reflexivity|].
    rewrite Hl. exact Hne.
Defined.

(** ** Traces *)

Section Traces.
Context {World : Type}.
Implicit Types s : Proc World.

Lemma emits_only_weaken {A} (P Q : Event -> Prop) (m : Act (World := World) A) :
  (forall e, P e -> Q e) -> emits_only P m -> emits_only Q m.
Proof.
  intros HPQ Hm s. destruct (Hm s) as (evs & Ht & Hall).
  exists evs. split; [exact Ht|]. eapply Forall_impl; eauto.
Qed.

Lemma emits_only_ret {A} P (a : A) : emits_only (World := World) P (ret a).
Proof. intros s. exists []. simpl. rewrite app_nil_r. auto. Qed.

Lemma emits_only_bind {A B} P (m : Act (World := World) A) (k : A -> Act (World := World) B) :
  emits_only P m -> (forall a, emits_only P (k a)) ->
  emits_only P (bind m k).
Proof.
  intros Hm Hk s. unfold bind.
  destruct (Hm s) as (evs1 & Ht1 & Hall1).
  destruct (m s) as [a s1]. simpl in Ht1.
  destruct (Hk a s1) as (evs2 & Ht2 & Hall2).
  exists (evs1 ++ evs2)%list. rewrite Ht2, Ht1, app_assoc.
  split; [reflexivity|]. apply Forall_app. auto.
Qed.

Lemma emits_only_ask {A} P (q : World -> A * World) :
  emits_only P (ask q).
Proof.
  intros s. exists []. unfold ask. destruct (q (world s)) as [a w]. simpl.
  rewrite app_nil_r. auto.
Qed.

Lemma emits_only_emit (P : Event -> Prop) e :
  P e -> emits_only (World := World) P (emit e).
Proof. intros He s. exists [e]. simpl. auto. Qed.

(** An action that reads the state before it chooses what to do. *)
Lemma emits_only_read {A} P (f : Proc World -> Act (World := World) A) :
  (forall s0, emits_only P (f s0)) -> emits_only P (fun s => f s s).
Proof. intros Hf s. apply (Hf s s). Qed.

(** An action that only updates the singletons. *)
Lemma emits_only_update {A} P (f : Proc World -> A * Proc World) :
  (forall s, trace (snd (f s)) = trace s) -> emits_only P f.
Proof.
  intros Hf s. exists []. rewrite Hf, app_nil_r. auto.
Qed.

Lemma emits_only_gets {A} P (f : Proc World -> A) : emits_only P (gets f).
Proof. apply emits_only_update. reflexivity. Qed.

Lemma emits_only_modify P (f : Proc World -> Proc World) :
  emits_only P (modify f).
Proof. apply emits_only_update. reflexivity. Qed.

Lemma stages_executed_app evs1 evs2 :
  stages_executed (evs1 ++ evs2) =
  (stages_executed evs1 ++ stages_executed evs2)%list.
Proof. apply omap_app. Qed.

Lemma stages_executed_none evs :
  Forall (fun e => ~ is_stage_event e) evs -> stages_executed evs = [].
Proof.
  induction 1 as [|e evs He _ IH]; [reflexivity|].
  unfold stages_executed in *.
  destruct e; simpl in *; try exact IH. exfalso. apply He. exact I.
Qed.

End Traces.

Create HintDb trace.
#[local] Hint Resolve emits_only_ret emits_only_ask emits_only_gets
  emits_only_modify : trace.
#[local] Hint Extern 1 (emits_only _ (emit _)) =>
  apply emits_only_emit; exact I : trace.

(** Walks through an action built from the combinators. *)
Ltac trace_steps :=
  repeat first
    [ solve [auto with trace]
    | apply emits_only_bind; [|intros ?]
    | match goal with
      | |- emits_only _ (match ?x with _ => _ end) => destruct x
      | |- emits_only _ (let '(_, _) := ?x in _) => destruct x
      end ].

Section Components.
Context {World : Type} (E : Env World).

Lemma check_rate_limit_emits api_key :
  emits_only (fun _ => False) (check_rate_limit E api_key).
Proof. unfold check_rate_limit. trace_steps. Qed.

Lemma cache_get_emits key : emits_only is_lookup_event (cache_get E key).
Proof. unfold cache_get. trace_steps. Qed.

Lemma cache_set_emits key value ttl :
  emits_only is_cache_write (cache_set E key value ttl).
Proof. unfold cache_set. trace_steps. Qed.

Lemma dns_validate_emits email :
  emits_only is_lookup_event (DNSValidator.validate E email).
Proof. unfold DNSValidator.validate, DNSValidator.lookup. trace_steps. Qed.

Lemma is_disposable_emits email :
  emits_only is_lookup_event (DisposableEmailDetector.is_disposable E email).
Proof.
  unfold DisposableEmailDetector.is_disposable,
    DisposableEmailDetector._update_disposable_list.
  trace_steps.
Qed.

Lemma check_mailbox_emits email mx_record :
  emits_only is_probe_event
    (SMTPValidator._check_mailbox_smtp E email mx_record).
Proof. unfold SMTPValidator._check_mailbox_smtp. trace_steps. Qed.

Lemma check_catch_all_emits email mx_record :
  emits_only is_probe_event (SMTPValidator._check_catch_all E email mx_record).
Proof.
  unfold SMTPValidator._check_catch_all. trace_steps.
Qed.

Lemma try_mx_records_emits email is_disposable mx_records :
  emits_only is_probe_event
    (SMTPValidator.try_mx_records E email is_disposable mx_records).
Proof.
  induction mx_records as [|mx rest IH]; simpl.
  - apply emits_only_ret.
  - apply emits_only_bind; [apply check_mailbox_emits|].
    intros result. destruct (fst (fst result)); [|exact IH].
    apply emits_only_bind; [apply check_catch_all_emits|].
    intros c. apply emits_only_ret.
Qed.

Lemma smtp_validate_emits email mx_records :
  emits_only (fun e => is_probe_event e \/ is_lookup_event e)
    (SMTPValidator.validate E email mx_records).
Proof.
  unfold SMTPValidator.validate. destruct mx_records as [|mx rest].
  - apply emits_only_ret.
  - apply emits_only_bind.
    + eapply emits_only_weaken; [|apply is_disposable_emits]. auto.
    + intros d. eapply emits_only_weaken; [|apply try_mx_records_emits].
      auto.
Qed.

Lemma not_stage_lookup e : is_lookup_event e -> ~ is_stage_event e.
Proof. destruct e; simpl; auto. Qed.

Lemma not_stage_probe e :
  is_probe_event e \/ is_lookup_event e -> ~ is_stage_event e.
Proof. destruct e; simpl; tauto. Qed.

Lemma not_stage_write e : is_cache_write e -> ~ is_stage_event e.
Proof. destruct e; simpl; auto. Qed.

Lemma stages_executed_lookup evs :
  Forall is_lookup_event evs -> stages_executed evs = [].
Proof.
  intros H. apply stages_executed_none.
  induction H; constructor; auto using not_stage_lookup.
Qed.

Lemma stages_executed_probe evs :
  Forall (fun e => is_probe_event e \/ is_lookup_event e) evs ->
  stages_executed evs = [].
Proof.
  intros H. apply stages_executed_none.
  induction H; constructor; auto using not_stage_probe.
Qed.

Lemma stages_executed_write evs :
  Forall is_cache_write evs -> stages_executed evs = [].
Proof.
  intros H. apply stages_executed_none.
  induction H; constructor; auto using not_stage_write.
Qed.

(** The stages that a run of [run_stages] executes, in order, with the
    outcomes it records. *)
Lemma run_stages_trace request s :
  let st := fst (Validation.run_stages E request s) in
  exists evs syn dns,
    trace (snd (Validation.run_stages E request s)) = (trace s ++ evs)%list /\
    outcome st Syntax = Some syn /\
    outcome st DNS = Some dns /\
    ((EmailValidationRequest.validation_level request = advanced /\
      ValidationResult.valid dns = true /\
      exists smtp,
        outcome st SMTP = Some smtp /\
        stages_executed evs = [(Syntax, syn); (DNS, dns); (SMTP, smtp)])
     \/
     ((EmailValidationRequest.validation_level request = basic \/
       ValidationResult.valid dns = false) /\
      outcome st SMTP = None /\
      stages_executed evs = [(Syntax, syn); (DNS, dns)])).
Proof.
  cbv zeta. unfold Validation.run_stages, bind, emit, ret, outcome.
  destruct (ValidationResult.valid (SyntaxValidator.validate E _));
    simpl;
    match goal with
    | |- context [DNSValidator.validate E ?e ?st] =>
        destruct (dns_validate_emits e st) as (evd & Htd & Hd);
        destruct (DNSValidator.validate E e st) as [dns s2]
    end; simpl in *;
    apply stages_executed_lookup in Hd;
    destruct (ValidationResult.valid dns) eqn:Hdns;
    destruct (EmailValidationRequest.validation_level request); simpl.
  all: try match goal with
    | |- context [SMTPValidator.validate E ?e ?m ?st] =>
        destruct (smtp_validate_emits e m st) as (evm & Htm & Hm);
        destruct (SMTPValidator.validate E e m st) as [smtp s3];
        simpl in *;
        apply stages_executed_probe in Hm;
        destruct (ValidationResult.valid smtp); simpl;
        rewrite Htm; simpl; rewrite Htd; simpl
    end.
  all: rewrite ?Htd; simpl.
  all: eexists _, (SyntaxValidator.validate E
                     (EmailValidationRequest.email request)), dns.
  all: (split; [rewrite <- ?app_assoc; reflexivity|]).
  all: rewrite !stages_executed_app, ?Hd, ?Hm; simpl.
  all: split; [reflexivity|]; split; [reflexivity|].
  all: first
         [ left; split; [reflexivity|]; split; [exact Hdns|];
           eexists; split; reflexivity
         | right; split; [auto|]; split; reflexivity ].
Qed.

Lemma stages_executed_silent evs :
  Forall (fun _ : Event => False) evs -> stages_executed evs = [].
Proof. intros H. destruct H; [reflexivity|contradiction]. Qed.


End Components.

(** ** SMTP prober *)

Section Prober.
Context {World : Type} (E : Env World).

Lemma smtp_check_sync_cases c :
  SMTPValidator._smtp_check_sync c = SMTPValidator.accepted \/
  SMTPValidator._smtp_check_sync c = SMTPValidator.rejected.
Proof.
  unfold SMTPValidator._smtp_check_sync.
  repeat match goal with
         | |- context [match ?x with _ => _ end] => destruct x
         end; auto.
Qed.

(** One probe: one event, and an all-or-nothing triple. *)
Lemma check_mailbox_probe email mx_record s :
  let result := fst (SMTPValidator._check_mailbox_smtp E email mx_record s) in
  trace (snd (SMTPValidator._check_mailbox_smtp E email mx_record s))
  = (trace s ++ [EvSmtpProbe mx_record email (fst (fst result))])%list /\
  (result = SMTPValidator.accepted \/ result = SMTPValidator.rejected).
Proof.
  unfold SMTPValidator._check_mailbox_smtp, bind, ask, emit, ret.
  destruct (smtp_session E (world s) mx_record email) as [c w]. simpl.
  split; [reflexivity|apply smtp_check_sync_cases].
Qed.

Lemma random_username_length draw :
  String.length (SMTPValidator.random_username draw) = 10%nat.
Proof. reflexivity. Qed.

Lemma random_username_alphanumeric draw :
  Forall alphanumeric
    (list_ascii_of_string (SMTPValidator.random_username draw)).
Proof.
  unfold SMTPValidator.random_username.
  rewrite list_ascii_of_string_of_list_ascii.
  unfold Py.choices. apply Forall_forall. intros c Hc.
  apply list_elem_of_In, in_map_iff in Hc. destruct Hc as (i & <- & _).
  apply nth_In. apply Nat.mod_upper_bound. discriminate.
Qed.

(** The catch-all probe: one probe of a forged address of the same domain
    at the same host. *)
Lemma check_catch_all_probe email domain mx_record s :
  Py.getitem (Py.split "@" email) 1 = Some domain ->
  exists username forged_ok s1,
    String.length username = 10%nat /\
    Forall alphanumeric (list_ascii_of_string username) /\
    SMTPValidator._check_catch_all E email mx_record s = (forged_ok, s1) /\
    trace s1
    = (trace s ++
       [EvSmtpProbe mx_record (username ++ "@" ++ domain) forged_ok])%list.
Proof.
  intros Hdom. unfold SMTPValidator._check_catch_all. rewrite Hdom.
  unfold bind, ask, ret.
  destruct (random_draws E (world s)) as [draw w].
  exists (SMTPValidator.random_username draw).
  destruct (check_mailbox_probe
              (SMTPValidator.random_username draw ++ "@" ++ domain)
              mx_record (with_world s w)) as [Ht Hcases].
  cbv zeta in Ht, Hcases.
  destruct (SMTPValidator._check_mailbox_smtp E _ mx_record (with_world s w))
    as [result s1].
  simpl in Ht, Hcases. eexists _, s1.
  split; [apply random_username_length|].
  split; [apply random_username_alphanumeric|].
  split; [reflexivity|]. rewrite Ht.
  destruct Hcases as [->| ->]; reflexivity.
Qed.

Lemma probes_app evs1 evs2 :
  probes (evs1 ++ evs2) = (probes evs1 ++ probes evs2)%list.
Proof. apply omap_app. Qed.

Lemma probes_cons mx_record rcpt ok evs :
  probes (EvSmtpProbe mx_record rcpt ok :: evs)
  = (mx_record, rcpt, ok) :: probes evs.
Proof. reflexivity. Qed.

Lemma probes_lookup evs : Forall is_lookup_event evs -> probes evs = [].
Proof.
  induction 1 as [|e evs He _ IH]; [reflexivity|].
  unfold probes in *. destruct e; simpl in *; try exact IH; contradiction.
Qed.

Lemma try_mx_records_probes email domain is_disposable mx_records :
  Py.getitem (Py.split "@" email) 1 = Some domain ->
  forall s, exists evs,
    trace (snd (SMTPValidator.try_mx_records E email is_disposable
                  mx_records s)) = (trace s ++ evs)%list /\
    mailbox_search email domain mx_records
      (fst (SMTPValidator.try_mx_records E email is_disposable mx_records s))
      evs.
Proof.
  intros Hdom. induction mx_records as [|mx rest IH]; intros s.
  - exists []. simpl. rewrite app_nil_r. split; [reflexivity|].
    left. split; reflexivity.
  - simpl. unfold bind.
    destruct (check_mailbox_probe email mx s) as [Ht Hcases].
    cbv zeta in Ht, Hcases.
    destruct (SMTPValidator._check_mailbox_smtp E email mx s) as [result s1].
    simpl in Ht, Hcases. destruct Hcases as [->| ->]; simpl in *.
    + destruct (check_catch_all_probe email domain mx s1 Hdom)
        as (username & forged_ok & s2 & Hlen & Halnum & Heq & Ht2).
      rewrite Heq. simpl.
      exists [EvSmtpProbe mx email true;
              EvSmtpProbe mx (username ++ "@" ++ domain) forged_ok].
      split; [rewrite Ht2, Ht, <- app_assoc; reflexivity|].
      right. split; [reflexivity|].
      exists [], mx, rest, username, forged_ok.
      repeat split; assumption.
    + destruct (IH s1) as (evs & Ht2 & Hsearch).
      exists (EvSmtpProbe mx email false :: evs).
      split.
      { rewrite Ht2, Ht, <- app_assoc. reflexivity. }
      destruct Hsearch as [[Hv Hp]|(Hv & rej & mx' & later & u & ok & Hl & Hp & Hrest)].
      * left. split; [exact Hv|]. rewrite probes_cons, Hp. reflexivity.
      * right. split; [exact Hv|].
        exists (mx :: rej), mx', later, u, ok.
        split; [rewrite Hl; reflexivity|].
        split; [|exact Hrest].
        rewrite probes_cons, Hp. reflexivity.
Qed.


End Prober.


(** ** Discovery orchestrator *)

Section Orchestrator.
Context {World : Type} (E : Env World).

Lemma invocations_app evs1 evs2 :
  invocations (evs1 ++ evs2) = (invocations evs1 ++ invocations evs2)%list.
Proof. apply omap_app. Qed.

Lemma cache_writes_app evs1 evs2 :
  cache_writes (evs1 ++ evs2)
  = (cache_writes evs1 ++ cache_writes evs2)%list.
Proof. apply omap_app. Qed.

Lemma invocations_lookup evs :
  Forall is_lookup_event evs -> invocations evs = [].
Proof.
  induction 1 as [|e evs He _ IH]; [reflexivity|].
  unfold invocations in *. destruct e; simpl in *; try exact IH; contradiction.
Qed.

Lemma cache_writes_lookup evs :
  Forall is_lookup_event evs -> cache_writes evs = [].
Proof.
  induction 1 as [|e evs He _ IH]; [reflexivity|].
  unfold cache_writes in *.
  destruct e; simpl in *; try exact IH; contradiction.
Qed.

Lemma invocations_write evs :
  Forall is_cache_write evs -> invocations evs = [].
Proof.
  induction 1 as [|e evs He _ IH]; [reflexivity|].
  unfold invocations in *. destruct e; simpl in *; try exact IH; contradiction.
Qed.

Lemma silent_nil (evs : list Event) :
  Forall (fun _ : Event => False) evs -> evs = [].
Proof. intros H. destruct H; [reflexivity|contradiction]. Qed.

Lemma invocations_provider_events domain methods results :
  length results = length methods ->
  invocations (provider_events domain methods results)
  = combine methods results.
Proof.
  revert results. induction methods as [|m methods IH];
    intros [|r results] Hlen; try discriminate; [reflexivity|].
  simpl in Hlen. injection Hlen as Hlen.
  unfold invocations, provider_events in *. simpl. f_equal. apply IH, Hlen.
Qed.

(** [gather] calls every provider once, in order. *)
Lemma gather_trace domain methods : forall s,
  let results := fst (Discovery.gather E domain methods s) in
  length results = length methods /\
  trace (snd (Discovery.gather E domain methods s))
  = (trace s ++ provider_events domain methods results)%list.
Proof.
  induction methods as [|m methods IH]; intros s; simpl.
  - rewrite app_nil_r. split; reflexivity.
  - unfold bind, ask, emit, ret.
    destruct (provider_discover E (world s) m domain) as [r w]. simpl.
    match goal with
    | |- context [Discovery.gather E domain methods ?st] =>
        destruct (IH st) as [Hlen Ht];
        destruct (Discovery.gather E domain methods st) as [rs s1]
    end.
    simpl in *. split; [f_equal; exact Hlen|].
    rewrite Ht, <- app_assoc. reflexivity.
Qed.

(** Up to the start of the orchestration only lookups happen. *)
Lemma discovery_start_trace request api_key s :
  exists evs,
    trace (discovery_start E request api_key s) = (trace s ++ evs)%list /\
    Forall is_lookup_event evs.
Proof.
  unfold discovery_start.
  destruct (check_rate_limit_emits E api_key s) as (ev1 & Ht1 & H1).
  apply silent_nil in H1. subst ev1. rewrite app_nil_r in Ht1.
  destruct (cache_get_emits E (Discovery.cache_key E request)
              (snd (check_rate_limit E api_key s))) as (ev2 & Ht2 & H2).
  exists ev2. rewrite Ht2, Ht1. auto.
Qed.

(** The endpoint on a run: a 400 without side effect when no method is
    selectable, else the merged outcome of the providers, cached. *)
Lemma discover_emails_runs request api_key s :
  discovery_runs E request api_key s ->
  let s2 := discovery_start E request api_key s in
  let gathered :=
    Discovery.gather E (EmailDiscoveryRequest.domain request)
      (selected E request) s2 in
  let response := response_of request (selected E request) (fst gathered) in
  Discovery.discover_emails E request api_key s =
    match selected E request with
    | [] => (HTTPException 400 "No valid discovery methods available", s2)
    | _ =>
        (Ok response,
         snd (cache_set E (Discovery.cache_key E request)
                (CDiscovery response) None (snd gathered)))
    end.
Proof.
  intros [Hadm Hmiss]. cbv zeta. unfold discovery_start, response_of.
  unfold Discovery.discover_emails, bind.
  destruct (check_rate_limit E api_key s) as [limited s1]. simpl in *.
  subst limited.
  destruct (cache_get E (Discovery.cache_key E request) s1) as [c s2].
  simpl in *. subst c. fold (selected E request).
  destruct (selected E request) as [|m rest]; [reflexivity|].
  destruct (Discovery.gather E _ (m :: rest) s2) as [results s3]. simpl.
  destruct (cache_set E _ _ None s3) as [b s4]. reflexivity.
Qed.

Lemma map_fst_combine {A B} (l : list A) : forall (r : list B),
  length r = length l -> map fst (combine l r) = l.
Proof.
  induction l as [|x l IH]; intros [|y r] Hlen; try discriminate;
    [reflexivity|].
  simpl. f_equal. apply IH. simpl in Hlen. congruence.
Qed.

Lemma map_snd_combine {A B} (l : list A) : forall (r : list B),
  length r = length l -> map snd (combine l r) = r.
Proof.
  induction l as [|x l IH]; intros [|y r] Hlen; try discriminate;
    [reflexivity|].
  simpl. f_equal. apply IH. simpl in Hlen. congruence.
Qed.

(** C9 (amended). On a discovery run (the call is admitted and misses the
    cache): if no requested method has an available provider the call fails
    with HTTP 400, no provider is invoked and nothing is written to the
    cache; otherwise every selected provider is invoked once, in request
    order, and a result is returned whatever the providers return or
    raise. *)
Theorem discovery_no_available_method request api_key s :
  discovery_runs E request api_key s ->
  let res := Discovery.discover_emails E request api_key s in
  exists evs,
    trace (snd res) = (trace s ++ evs)%list /\
    (selected E request = [] ->
     fst res = HTTPException 400 "No valid discovery methods available" /\
     invocations evs = [] /\
     cache_writes evs = [] /\
     memory_cache (snd res)
     = memory_cache (discovery_start E request api_key s)) /\
    (selected E request <> [] ->
     exists response,
       fst res = Ok response /\
       EmailDiscoveryResponse.methods_used response = selected E request /\
       map fst (invocations evs) = selected E request).
Proof.
  intros Hrun res. subst res.
  rewrite (discover_emails_runs request api_key s Hrun). cbv zeta.
  destruct (discovery_start_trace request api_key s) as (ev1 & Ht1 & H1).
  destruct (selected E request) as [|m rest] eqn:Hsel.
  - exists ev1. split; [exact Ht1|]. split; [|intros H; contradiction].
    intros _. simpl.
    split; [reflexivity|]. split; [apply invocations_lookup, H1|].
    split; [apply cache_writes_lookup, H1|reflexivity].
  - destruct (gather_trace (EmailDiscoveryRequest.domain request) (m :: rest)
                (discovery_start E request api_key s)) as [Hlen Ht2].
    cbv zeta in Hlen, Ht2.
    destruct (Discovery.gather E _ (m :: rest) _) as [results s3].
    simpl in Hlen, Ht2.
    match goal with
    | |- context [cache_set E ?k ?v ?t ?st] =>
        destruct (cache_set_emits E k v t st) as (ev3 & Ht3 & H3)
    end.
    simpl in Ht3 |- *.
    eexists. split; [rewrite Ht3, Ht2, Ht1, <- !app_assoc; reflexivity|].
    split; [discriminate|]. intros _. eexists. split; [reflexivity|].
    split; [reflexivity|].
    rewrite !invocations_app, (invocations_lookup _ H1),
      (invocations_write _ H3), app_nil_r.
    simpl. rewrite invocations_provider_events by exact Hlen.
    apply map_fst_combine, Hlen.
Qed.

(** The de-duplication loop: no address twice, every entry kept is the
    first candidate with its address, and no new address is lost. *)
Lemma unique_from_spec (l : list EmailResult.t) : forall seen : gset string,
  NoDup (addresses (Discovery.unique_from seen l)) /\
  (forall e, e ∈ Discovery.unique_from seen l ->
             (EmailResult.email e ∉ seen) /\ first_with_address e l) /\
  (forall a, a ∈ addresses l -> a ∉ seen ->
             a ∈ addresses (Discovery.unique_from seen l)).
Proof.
  induction l as [|x l IH]; intros seen; simpl.
  - split; [constructor|].
    split; [intros e He; apply elem_of_nil in He
           |intros a Ha; apply elem_of_nil in Ha]; contradiction.
  - case_bool_decide as Hseen.
    + destruct (IH seen) as (Hnd & Hfirst & Hcover).
      split; [exact Hnd|]. split.
      * intros e He. destruct (Hfirst e He) as (Hne & before & after & -> & Hb).
        split; [exact Hne|]. exists (x :: before), after.
        split; [reflexivity|]. simpl. intros Hin.
        apply elem_of_cons in Hin. destruct Hin as [Heq|Hin]; [|auto].
        rewrite Heq in Hne. contradiction.
      * intros a Ha Hna. simpl in Ha. apply elem_of_cons in Ha.
        destruct Ha as [->|Ha]; [contradiction|]. auto.
    + destruct (IH ({[EmailResult.email x]} ∪ seen))
        as (Hnd & Hfirst & Hcover).
      split; [|split].
      * simpl. apply NoDup_cons. split; [|exact Hnd].
        intros Hin. unfold addresses in Hin.
        apply list_elem_of_fmap in Hin. destruct Hin as (e & Heq & He).
        destruct (Hfirst e He) as (Hne & _). apply Hne. rewrite <- Heq.
        apply elem_of_union. left. apply elem_of_singleton. reflexivity.
      * intros e He. apply elem_of_cons in He. destruct He as [->|He].
        { split; [exact Hseen|]. exists [], l. split; [reflexivity|].
          simpl. apply not_elem_of_nil. }
        destruct (Hfirst e He) as (Hne & before & after & -> & Hb).
        split; [intros Hin; apply Hne, elem_of_union; right; exact Hin|].
        exists (x :: before), after.
        split; [reflexivity|]. simpl. intros Hin.
        apply elem_of_cons in Hin. destruct Hin as [Heq|Hin]; [|auto].
        apply Hne. rewrite Heq.
        apply elem_of_union. left. apply elem_of_singleton. reflexivity.
      * intros a Ha Hna. simpl in Ha |- *. apply elem_of_cons in Ha.
        destruct (decide (a = EmailResult.email x)) as [->|Hneq].
        { apply elem_of_cons. left. reflexivity. }
        destruct Ha as [->|Ha]; [contradiction|].
        apply elem_of_cons. right. apply Hcover; [exact Ha|].
        intros Hin. apply elem_of_union in Hin.
        destruct Hin as [Hin|Hin]; [|contradiction].
        apply elem_of_singleton in Hin. contradiction.
Qed.

(** C1 (amended). On a discovery run that returns a result, the merged list
    is the de-duplication of the concatenated candidate lists of the
    providers invoked: it contains each address at most once, it contains
    every address some provider returned, and the candidate kept for an
    address is the first one returned with that address (whatever the
    confidences of the later ones); [total_found] is its length. *)
Theorem merge_keeps_first_seen request api_key s response :
  discovery_runs E request api_key s ->
  fst (Discovery.discover_emails E request api_key s) = Ok response ->
  exists evs,
    trace (snd (Discovery.discover_emails E request api_key s))
    = (trace s ++ evs)%list /\
    NoDup (addresses (EmailDiscoveryResponse.emails response)) /\
    (forall a,
       a ∈ addresses (candidates evs) <->
       a ∈ addresses (EmailDiscoveryResponse.emails response)) /\
    (forall e,
       e ∈ EmailDiscoveryResponse.emails response ->
       first_with_address e (candidates evs)) /\
    EmailDiscoveryResponse.total_found response
    = length (EmailDiscoveryResponse.emails response).
Proof.
  intros Hrun Hok.
  rewrite (discover_emails_runs request api_key s Hrun) in Hok |- *.
  cbv zeta in Hok |- *.
  destruct (discovery_start_trace request api_key s) as (ev1 & Ht1 & H1).
  destruct (selected E request) as [|m rest] eqn:Hsel; [discriminate|].
  destruct (gather_trace (EmailDiscoveryRequest.domain request) (m :: rest)
              (discovery_start E request api_key s)) as [Hlen Ht2].
  cbv zeta in Hlen, Ht2.
  destruct (Discovery.gather E _ (m :: rest) _) as [results s3].
  simpl in Hlen, Ht2, Hok. injection Hok as <-.
  match goal with
  | |- context [cache_set E ?k ?v ?t ?st] =>
      destruct (cache_set_emits E k v t st) as (ev3 & Ht3 & H3)
  end.
  simpl in Ht3 |- *.
  eexists. split; [rewrite Ht3, Ht2, Ht1, <- !app_assoc; reflexivity|].
  assert (Hcand :
    candidates (ev1 ++ provider_events (EmailDiscoveryRequest.domain request)
                         (m :: rest) results ++ ev3)
    = Discovery.all_emails_of results).
  { unfold candidates.
    rewrite !invocations_app, (invocations_lookup _ H1),
      (invocations_write _ H3), app_nil_r.
    simpl app. rewrite invocations_provider_events by exact Hlen.
    f_equal. apply map_snd_combine, Hlen. }
  rewrite Hcand. unfold Discovery.unique_emails.
  destruct (unique_from_spec (Discovery.all_emails_of results) ∅)
    as (Hnd & Hfirst & Hcover).
  split; [exact Hnd|]. split; [|split; [|reflexivity]].
  - intros a. split.
    + intros Ha. apply Hcover; [exact Ha|apply not_elem_of_empty].
    + intros Ha. unfold addresses in Ha |- *.
      apply list_elem_of_fmap in Ha. destruct Ha as (e & -> & He).
      destruct (Hfirst e He) as (_ & before & after & -> & _).
      apply list_elem_of_fmap. exists e. split; [reflexivity|].
      apply elem_of_app. right. apply elem_of_cons. left. reflexivity.
  - intros e He. apply (Hfirst e He).
Qed.

End Orchestrator.

(** C9 (as stated) fails: with no available provider for the requested
    method, a call answered from the durable store returns the stored
    result, and a call over the rate limit fails with 429, not 400. *)
Lemma discovery_without_available_method_not_400 :
  let E := example_env default_settings resolver_nxdomain
             (fun _ _ => session_rcpt 250) no_backend in
  let E_redis :=
    example_env_redis default_settings
      (fun _ => Some (CDiscovery stored_response)) no_backend in
  selected E third_party_request = [] /\
  selected E_redis third_party_request = [] /\
  fst (Discovery.discover_emails E_redis third_party_request "key-1"
         process_with_redis) = Ok stored_response /\
  fst (Discovery.discover_emails E third_party_request "key-1"
         saturated_process)
  = HTTPException 429 "Rate limit exceeded. Maximum 10 requests per minute.".
Proof.
  intros E E_redis. repeat split; vm_compute; reflexivity.
Qed.

Lemma discovery_no_available_method_witness :
  let E := example_env default_settings resolver_nxdomain
             (fun _ _ => session_rcpt 250) two_backends in
  fst (Discovery.discover_emails E third_party_request "key-1" fresh_process)
  = HTTPException 400 "No valid discovery methods available" /\
  exists response,
    fst (Discovery.discover_emails E overlapping_request "key-1"
           fresh_process) = Ok response /\
    EmailDiscoveryResponse.methods_used response
    = ["scraping"; "whois"; "patterns"].
Proof.
  intros E. split.
  - destruct (discovery_no_available_method E third_party_request "key-1"
                fresh_process) as (evs & _ & Hnone & _).
    + split; vm_compute; reflexivity.
    + apply Hnone. vm_compute. reflexivity.
  - destruct (discovery_no_available_method E overlapping_request "key-1"
                fresh_process) as (evs & _ & _ & Hsome).
    + split; vm_compute; reflexivity.
    + destruct Hsome as (response & Hok & Hused & _).
      { vm_compute. discriminate. }
      exists response. split; [exact Hok|]. rewrite Hused.
      vm_compute. reflexivity.
Defined.

(** C1 (as stated) fails: two providers return the same address with
    confidences 0.3 and 0.9, and the merged candidate is the first one
    returned, with confidence 0.3. *)
Lemma merge_does_not_keep_highest_confidence :
  let E := example_env default_settings resolver_nxdomain
             (fun _ _ => session_rcpt 250) two_backends in
  exists response,
    fst (Discovery.discover_emails E overlapping_request "key-1"
           fresh_process) = Ok response /\
    EmailDiscoveryResponse.emails response = [scraped] /\
    EmailResult.email scraped = EmailResult.email guessed /\
    EmailResult.confidence scraped = 0.3%float /\
    EmailResult.confidence guessed = 0.9%float /\
    PrimFloat.ltb (EmailResult.confidence scraped)
                  (EmailResult.confidence guessed) = true.
Proof.
  intros E. eexists. split; [vm_compute; reflexivity|].
  repeat split; reflexivity.
Qed.

Lemma merge_keeps_first_seen_witness :
  let E := example_env default_settings resolver_nxdomain
             (fun _ _ => session_rcpt 250) two_backends in
  exists response,
    fst (Discovery.discover_emails E overlapping_request "key-1"
           fresh_process) = Ok response /\
    NoDup (addresses (EmailDiscoveryResponse.emails response)) /\
    EmailDiscoveryResponse.total_found response
    = length (EmailDiscoveryResponse.emails response).
Proof.
  intros E.
  assert (Hok : exists response,
    fst (Discovery.discover_emails E overlapping_request "key-1"
           fresh_process) = Ok response)
    by (eexists; vm_compute; reflexivity).
  destruct Hok as (response & Hok). exists response.
  destruct (merge_keeps_first_seen E overlapping_request "key-1"
              fresh_process response) as (evs & _ & Hnd & _ & _ & Hlen).
  - split; vm_compute; reflexivity.
  - exact Hok.
  - auto.
Defined.

(* ===================================================================== *)
(** * Further properties of the code *)

(** ** Rate limiter *)

Section RateLimiterGuarantee.
Import APIKeyRateLimiter.

Lemma prune_prune t0 t l :
  (t0 <= t)%Q -> prune t (prune t0 l) = prune t l.
Proof.
  intros Hle. induction l as [|a l IH]; [reflexivity|].
  unfold prune in *. simpl.
  destruct (Qgtb a (t0 - 60)%Q) eqn:H0; simpl.
  - rewrite IH. reflexivity.
  - rewrite IH.
    assert (H1 : Qgtb a (t - 60)%Q = false).
    { apply not_true_iff_false. rewrite Qgtb_true.
      apply not_true_iff_false in H0. rewrite Qgtb_true in H0.
      intros Hlt. apply H0. lra. }
    rewrite H1. reflexivity.
Qed.

Lemma prune_app t l1 l2 : prune t (l1 ++ l2) = (prune t l1 ++ prune t l2)%list.
Proof. apply List.filter_app. Qed.

Lemma prune_self t : prune t [t] = [t].
Proof.
  unfold prune. simpl.
  assert (H : Qgtb t (t - 60)%Q = true) by (apply Qgtb_true; lra).
  rewrite H. reflexivity.
Qed.

Lemma window_within_prune t a l :
  (t - 60 < a)%Q -> (a <= t)%Q ->
  (length (List.filter (in_window t) l) <= length (prune a l))%nat.
Proof.
  intros Hlo Hhi. induction l as [|b l IH]; [simpl; lia|].
  unfold prune in *. simpl.
  destruct (in_window t b) eqn:Hb; simpl.
  - unfold in_window in Hb. apply andb_true_iff in Hb. destruct Hb as [Hb _].
    apply Qgtb_true in Hb.
    assert (H : Qgtb b (a - 60)%Q = true) by (apply Qgtb_true; lra).
    rewrite H. simpl. lia.
  - destruct (Qgtb b (a - 60)%Q); simpl; lia.
Qed.

(** The invariant of a run of calls: what is on record is the pruned list
    of the accepted instants, and no window holds more of them than the
    ceiling allows. *)
Lemma calls_window_invariant st key ts : forall reqs t0 acc,
  recorded key reqs = prune t0 acc ->
  (forall u, In u ts -> (t0 <= u)%Q) ->
  nondecreasing ts ->
  (forall t, Z.of_nat (length (List.filter (in_window t) acc))
             <= Z.max 0 (rate_limit_per_minute st)) ->
  forall t,
    Z.of_nat (length (List.filter (in_window t)
                        (acc ++ accepted_instants ts
                                  (fst (calls st key ts reqs)))))
    <= Z.max 0 (rate_limit_per_minute st).
Proof.
  induction ts as [|t1 ts IH]; intros reqs t0 acc Hrec Hge Hmono Hw t.
  - simpl. rewrite app_nil_r. apply Hw.
  - simpl. rewrite is_allowed_eq, Hrec.
    rewrite prune_prune by (apply Hge; now left).
    destruct Hmono as [Hfirst Hmono].
    destruct (Z.geb_spec (Z.of_nat (length (prune t1 acc)))
                (rate_limit_per_minute st)) as [Hfull|Hroom].
    + specialize (IH (<[key := prune t1 acc]> reqs) t1 acc).
      destruct (calls st key ts (<[key := prune t1 acc]> reqs))
        as [oks reqs2] eqn:Hcalls.
      simpl in *. apply IH; auto. apply recorded_insert.
    + specialize (IH (<[key := (prune t1 acc ++ [t1])%list]> reqs) t1
                     (acc ++ [t1])%list).
      destruct (calls st key ts (<[key := (prune t1 acc ++ [t1])%list]> reqs))
        as [oks reqs2] eqn:Hcalls.
      simpl in *. change (t1 :: accepted_instants ts oks)
        with ([t1] ++ accepted_instants ts oks)%list.
      rewrite app_assoc. apply IH; auto.
      * rewrite recorded_insert, prune_app, prune_self. reflexivity.
      * intros w. rewrite List.filter_app, length_app. simpl.
        destruct (in_window w t1) eqn:Hin; simpl.
        -- unfold in_window in Hin. apply andb_true_iff in Hin.
           destruct Hin as [Hlo Hhi]. apply Qgtb_true in Hlo.
           apply Qle_bool_iff in Hhi.
           pose proof (window_within_prune w t1 acc Hlo Hhi). lia.
        -- specialize (Hw w). lia.
Qed.

(** X1. Starting from an identity with nothing on record and with clock
    readings that never go back, no window of 60 seconds ever contains more
    accepted calls than the per-minute ceiling (none at all when the
    ceiling is zero or negative). *)
Theorem accepted_calls_per_window st key ts reqs t :
  recorded key reqs = [] ->
  nondecreasing ts ->
  Z.of_nat (length (List.filter (in_window t)
                      (accepted_instants ts (fst (calls st key ts reqs)))))
  <= Z.max 0 (rate_limit_per_minute st).
Proof.
  intros Hrec Hmono.
  destruct ts as [|t1 ts]; [simpl; lia|].
  apply (calls_window_invariant st key (t1 :: ts) reqs t1 []); auto.
  - intros u [<-|Hu]; [lra|]. destruct Hmono as [Hfirst _]. auto.
  - intros w. simpl. lia.
Qed.

(** X2. Identities do not interfere: a call for another identity changes
    neither the decision nor the record of this one. *)
Theorem identities_are_independent st t t' key other reqs :
  other <> key ->
  let reqs' := snd (is_allowed st t' other reqs) in
  fst (is_allowed st t key reqs') = fst (is_allowed st t key reqs) /\
  recorded key (snd (is_allowed st t key reqs'))
  = recorded key (snd (is_allowed st t key reqs)).
Proof.
  intros Hne reqs'.
  assert (Hsame : recorded key reqs' = recorded key reqs).
  { subst reqs'. unfold recorded. rewrite is_allowed_eq.
    destruct (_ >=? _); simpl; rewrite lookup_insert_ne by exact Hne;
      reflexivity. }
  rewrite !is_allowed_eq, Hsame.
  destruct (_ >=? _); simpl; rewrite !recorded_insert; split; reflexivity.
Qed.

End RateLimiterGuarantee.

Lemma accepted_calls_per_window_witness :
  Z.of_nat
    (length (List.filter (in_window (inject_Z 11))
               (accepted_instants (ten_instants ++ [inject_Z 11])
                  (fst (calls default_settings "key-1"
                          (ten_instants ++ [inject_Z 11]) ∅)))))
  <= 10.
Proof.
  apply (accepted_calls_per_window default_settings "key-1"
           (ten_instants ++ [inject_Z 11]) ∅ (inject_Z 11)).
  - vm_compute. reflexivity.
  - simpl. repeat split;
      intros u Hu; simpl in Hu;
      repeat (destruct Hu as [<-|Hu]; [discriminate|]); contradiction.
Defined.

Lemma identities_are_independent_witness :
  let reqs' :=
    snd (APIKeyRateLimiter.is_allowed default_settings (inject_Z 1) "key-2"
           ∅) in
  fst (APIKeyRateLimiter.is_allowed default_settings (inject_Z 2) "key-1"
         reqs')
  = fst (APIKeyRateLimiter.is_allowed default_settings (inject_Z 2) "key-1"
           ∅).
Proof.
  intros reqs'.
  apply (identities_are_independent default_settings (inject_Z 2)
           (inject_Z 1) "key-1" "key-2" ∅).
  discriminate.
Defined.

(** ** Cache *)

Section CacheExtras.
Context {V : Type}.
Implicit Types memory_cache : gmap string (V * Z).

(** What the in-process map answers at [now]. *)
Lemma get_fallback (on_get : RedisOutcome (option V)) now key memory_cache :
  read_fell_back on_get ->
  fst (CacheManager.get on_get now key memory_cache) =
    match memory_cache !! key with
    | Some (v, expiry) => if now <? expiry then Some v else None
    | None => None
    end.
Proof.
  intros Hr. unfold CacheManager.get.
  destruct on_get as [|[v|]|msg]; simpl in Hr; try contradiction;
    destruct (memory_cache !! key) as [[v' e]|]; try reflexivity;
    destruct (now <? e); reflexivity.
Qed.

(** The sweep keeps exactly the entries that are not expired. *)
Lemma clean_expired_lookup now memory_cache key :
  CacheManager._clean_expired now memory_cache !! key =
    match memory_cache !! key with
    | Some (v, expiry) => if now <? expiry then Some (v, expiry) else None
    | None => None
    end.
Proof.
  unfold CacheManager._clean_expired.
  destruct (memory_cache !! key) as [[v e]|] eqn:Hk.
  - destruct (Z.ltb_spec now e).
    + apply map_lookup_filter_Some. split; [exact Hk|]. simpl. lia.
    + apply map_lookup_filter_None. right. intros x Hx. rewrite Hk in Hx.
      injection Hx as <-. simpl. lia.
  - apply map_lookup_filter_None. left. exact Hk.
Qed.

(** A write that fell back to the process: the entry is stored, then the
    sweep runs if more than a thousand entries are held. *)
Lemma set_fallback_eq st on_set now now_clean key (value : V) ttl
    memory_cache :
  write_fell_back on_set ->
  let written := <[key := (value, expiry_of st now ttl)]> memory_cache in
  snd (CacheManager.set st on_set now now_clean key value ttl memory_cache)
  = if 1000 <? Z.of_nat (size written)
    then CacheManager._clean_expired now_clean written
    else written.
Proof.
  intros Hw. unfold CacheManager.set, expiry_of.
  destruct on_set; simpl in Hw; try contradiction; reflexivity.
Qed.

(** What a write that fell back to the process leaves under each key. *)
Lemma set_fallback_lookup st on_set now now_clean key (value : V) ttl
    memory_cache k :
  write_fell_back on_set ->
  let after :=
    snd (CacheManager.set st on_set now now_clean key value ttl
           memory_cache) in
  let written := <[key := (value, expiry_of st now ttl)]> memory_cache in
  after !! k = written !! k \/
  (after !! k = None /\
   exists v e, written !! k = Some (v, e) /\ e <= now_clean).
Proof.
  intros Hw. cbv zeta. rewrite set_fallback_eq by exact Hw. cbv zeta.
  destruct (1000 <? _); [|left; reflexivity].
  rewrite clean_expired_lookup.
  destruct (_ !! k) as [[v e]|] eqn:Hk; [|left; reflexivity].
  destruct (Z.ltb_spec now_clean e); [left; reflexivity|].
  right. split; [reflexivity|]. exists v, e. split; [reflexivity|lia].
Qed.

(** X3. A write to one key is invisible to the readers of every other key:
    whether or not the write triggers the sweep of expired entries, a later
    [get] of another key returns what it would have returned without the
    write. *)
Theorem set_leaves_other_keys st on_set (on_get : RedisOutcome (option V))
    now now_clean t_get key other (value : V) ttl memory_cache :
  other <> key ->
  write_fell_back on_set ->
  now_clean <= t_get ->
  fst (CacheManager.get on_get t_get other
         (snd (CacheManager.set st on_set now now_clean key value ttl
                 memory_cache)))
  = fst (CacheManager.get on_get t_get other memory_cache).
Proof.
  intros Hne Hw Hclock.
  destruct on_get as [|[v|]|msg]; try reflexivity;
    rewrite !get_fallback by exact I;
    (destruct (set_fallback_lookup st on_set now now_clean key value ttl
                 memory_cache other Hw) as [Heq|(Hnone & v & e & Hk & He)];
     cbv zeta in *;
     [rewrite Heq, lookup_insert_ne by (intros ->; contradiction);
      reflexivity
     |rewrite Hnone; rewrite lookup_insert_ne in Hk
        by (intros ->; contradiction);
      rewrite Hk; destruct (Z.ltb_spec t_get e); [lia|reflexivity]]).
Qed.

(** X4. An entry written by a [set] that fell back to the process is
    readable strictly before its expiry instant and never at or after it:
    a [get] returns it exactly when the clock reads less than
    [now + ttl] seconds. A [ttl] of [None] or of zero stands for the
    configured default: the entry then has a positive lifetime when
    [cache_ttl_seconds] is positive and is never read when that setting is
    zero or negative. A negative [ttl] gives an entry that is never read. *)
Theorem entry_lifetime st on_set (on_get : RedisOutcome (option V))
    now now_clean t_get key (value : V) ttl memory_cache :
  write_fell_back on_set ->
  read_fell_back on_get ->
  now <= now_clean <= t_get ->
  fst (CacheManager.get on_get t_get key
         (snd (CacheManager.set st on_set now now_clean key value ttl
                 memory_cache)))
  = (if t_get <? expiry_of st now ttl then Some value else None) /\
  expiry_of st now None = now + cache_ttl_seconds st * 1000000 /\
  expiry_of st now (Some 0) = expiry_of st now None /\
  (0 < cache_ttl_seconds st -> now < expiry_of st now None) /\
  (cache_ttl_seconds st <= 0 ->
   forall ttl', ttl' = None \/ ttl' = Some 0 ->
     fst (CacheManager.get on_get t_get key
            (snd (CacheManager.set st on_set now now_clean key value ttl'
                    memory_cache))) = None) /\
  (forall n, n < 0 ->
     fst (CacheManager.get on_get t_get key
            (snd (CacheManager.set st on_set now now_clean key value (Some n)
                    memory_cache))) = None).
Proof.
  intros Hw Hr Hclock.
  assert (Hlife : forall ttl',
    fst (CacheManager.get on_get t_get key
           (snd (CacheManager.set st on_set now now_clean key value ttl'
                   memory_cache)))
    = if t_get <? expiry_of st now ttl' then Some value else None).
  { intros ttl'. rewrite get_fallback by exact Hr.
    destruct (set_fallback_lookup st on_set now now_clean key value ttl'
                memory_cache key Hw) as [Heq|(Hnone & v & e & Hk & He)];
      cbv zeta in *.
    - rewrite Heq, lookup_insert_eq. reflexivity.
    - rewrite Hnone. rewrite lookup_insert_eq in Hk. injection Hk as <- <-.
      destruct (Z.ltb_spec t_get (expiry_of st now ttl')); [lia|reflexivity]. }
  split; [apply Hlife|]. split; [reflexivity|]. split; [reflexivity|].
  split; [|split].
  - intros Hpos.
    unfold expiry_of, Py.int_or, CacheManager.timedelta_seconds. lia.
  - intros Hzero ttl' Httl. rewrite Hlife.
    assert (He : expiry_of st now ttl' <= now).
    { destruct Httl as [->| ->];
        unfold expiry_of, Py.int_or, CacheManager.timedelta_seconds;
        simpl; lia. }
    destruct (Z.ltb_spec t_get (expiry_of st now ttl')); [lia|reflexivity].
  - intros n Hn. rewrite Hlife.
    unfold expiry_of, Py.int_or, CacheManager.timedelta_seconds.
    destruct (Z.eqb_spec n 0); [lia|].
    destruct (Z.ltb_spec t_get (now + n * 1000000)); [lia|reflexivity].
Qed.

(** X5. [delete] removes the entry of the key from the in-process map and
    nothing else: afterwards a [get] of the key that falls back to the
    process returns nothing, and every other key reads as before. *)
Theorem delete_then_get (on_delete : RedisOutcome unit)
    (on_get : RedisOutcome (option V)) now key memory_cache :
  let after := snd (CacheManager.delete on_delete key memory_cache) in
  (read_fell_back on_get ->
   fst (CacheManager.get on_get now key after) = None) /\
  (forall other, other <> key ->
     fst (CacheManager.get on_get now other after)
     = fst (CacheManager.get on_get now other memory_cache)) /\
  fst (CacheManager.delete on_delete key memory_cache) = true.
Proof.
  cbv zeta. unfold CacheManager.delete. simpl. split; [|split].
  - intros Hr. rewrite get_fallback by exact Hr.
    rewrite lookup_delete_eq. reflexivity.
  - intros other Hne.
    destruct on_get as [|[v|]|msg]; try reflexivity;
      rewrite !get_fallback by exact I;
      rewrite lookup_delete_ne by (intros ->; contradiction); reflexivity.
  - reflexivity.
Qed.

(** X6. Reading an expired entry evicts it: the [get] returns nothing and
    removes the entry, so the key stays absent whatever the clock reads
    later (even if it is set back); reading an entry that is not expired
    leaves the map as it is. *)
Theorem expired_entry_is_evicted (on_get on_get' : RedisOutcome (option V))
    now later key (value : V) expiry memory_cache :
  read_fell_back on_get ->
  read_fell_back on_get' ->
  memory_cache !! key = Some (value, expiry) ->
  let after := snd (CacheManager.get on_get now key memory_cache) in
  (expiry <= now ->
   fst (CacheManager.get on_get now key memory_cache) = None /\
   after = delete key memory_cache /\
   fst (CacheManager.get on_get' later key after) = None) /\
  (now < expiry ->
   fst (CacheManager.get on_get now key memory_cache) = Some value /\
   after = memory_cache).
Proof.
  intros Hr Hr' Hk. cbv zeta.
  assert (Hget : CacheManager.get on_get now key memory_cache =
                 if now <? expiry then (Some value, memory_cache)
                 else (None, delete key memory_cache)).
  { unfold CacheManager.get.
    destruct on_get as [|[v|]|msg]; simpl in Hr; try contradiction;
      rewrite Hk; reflexivity. }
  rewrite Hget. split; intros Hcmp.
  - destruct (Z.ltb_spec now expiry); [lia|]. simpl.
    split; [reflexivity|]. split; [reflexivity|].
    rewrite get_fallback by exact Hr'. rewrite lookup_delete_eq. reflexivity.
  - destruct (Z.ltb_spec now expiry); [|lia]. simpl. split; reflexivity.
Qed.

(** X7. When a write leaves more than a thousand entries in the in-process
    map, the sweep runs: every entry that remains is not expired at the
    reading of the sweep, and every entry that was not expired remains.
    With a thousand entries or fewer no entry is dropped. *)
Theorem sweep_after_set st on_set now now_clean key (value : V) ttl
    memory_cache :
  write_fell_back on_set ->
  let written := <[key := (value, expiry_of st now ttl)]> memory_cache in
  let after :=
    snd (CacheManager.set st on_set now now_clean key value ttl
           memory_cache) in
  (1000 < Z.of_nat (size written) ->
   forall k v e,
     after !! k = Some (v, e) <->
     written !! k = Some (v, e) /\ now_clean < e) /\
  (Z.of_nat (size written) <= 1000 -> after = written).
Proof.
  intros Hw. cbv zeta. rewrite set_fallback_eq by exact Hw. cbv zeta.
  split; intros Hsize.
  - destruct (Z.ltb_spec 1000
                (Z.of_nat (size (<[key := (value, expiry_of st now ttl)]>
                                   memory_cache)))); [|lia].
    intros k v e. rewrite clean_expired_lookup.
    destruct (_ !! k) as [[v' e']|];
      [|split; [discriminate|intros [H' _]; discriminate]].
    destruct (Z.ltb_spec now_clean e'); split.
    + intros H'. injection H' as <- <-. split; [reflexivity|lia].
    + intros [H' _]. exact H'.
    + discriminate.
    + intros [H' Hlt]. injection H' as <- <-. lia.
  - destruct (Z.ltb_spec 1000
                (Z.of_nat (size (<[key := (value, expiry_of st now ttl)]>
                                   memory_cache)))); [lia|reflexivity].
Qed.

End CacheExtras.

Lemma set_leaves_other_keys_witness :
  fst (CacheManager.get (Raised "connection refused") 2 "other"
         (snd (CacheManager.set default_settings NoClient 1 1 "k" 7%nat
                 (Some 60) {[ "other" := (3%nat, 1000000) ]})))
  = Some 3%nat.
Proof.
  rewrite (set_leaves_other_keys default_settings NoClient
             (Raised "connection refused") 1 1 2 "k" "other" 7%nat (Some 60)
             {[ "other" := (3%nat, 1000000) ]}).
  - vm_compute. reflexivity.
  - discriminate.
  - exact I.
  - lia.
Defined.

Lemma entry_lifetime_witness :
  fst (CacheManager.get NoClient 60000001 "k"
         (snd (CacheManager.set default_settings NoClient 1 1 "k" 7%nat
                 (Some 60) ∅)))
  = None.
Proof.
  destruct (entry_lifetime default_settings NoClient NoClient 1 1 60000001
              "k" 7%nat (Some 60) ∅ I I) as [H _]; [lia|].
  rewrite H. vm_compute. reflexivity.
Defined.

Lemma delete_then_get_witness :
  fst (CacheManager.get NoClient 0 "k"
         (snd (CacheManager.delete NoClient "k"
                 ({[ "k" := (7%nat, 10) ]} : gmap string (nat * Z)))))
  = None.
Proof.
  apply (delete_then_get NoClient NoClient 0 "k" {[ "k" := (7%nat, 10) ]}).
  exact I.
Defined.

Lemma expired_entry_is_evicted_witness :
  fst (CacheManager.get NoClient 0 "k"
         (snd (CacheManager.get NoClient 10 "k"
                 ({[ "k" := (7%nat, 10) ]} : gmap string (nat * Z)))))
  = None.
Proof.
  destruct (expired_entry_is_evicted NoClient NoClient 10 0 "k" 7%nat 10
              {[ "k" := (7%nat, 10) ]} I I) as [H _].
  - vm_compute. reflexivity.
  - apply H. lia.
Defined.

(** A write into a map of 1001 expired entries sweeps all of them. *)
Lemma sweep_after_set_witness :
  let after :=
    snd (CacheManager.set default_settings NoClient 10 10 "k" 7%nat (Some 60)
           crowded_cache) in
  after !! "k" = Some (7%nat, 60000010) /\ after !! "0" = None.
Proof.
  intros after.
  destruct (sweep_after_set default_settings NoClient 10 10 "k" 7%nat
              (Some 60) crowded_cache I) as [Hsweep _].
  assert (Hsize : 1000 < Z.of_nat
            (size (<["k" := (7%nat, expiry_of default_settings 10 (Some 60))]>
                     crowded_cache))) by (vm_compute; reflexivity).
  specialize (Hsweep Hsize). split.
  - apply Hsweep. split; [vm_compute; reflexivity|lia].
  - destruct (after !! "0") as [[v e]|] eqn:H0; [|reflexivity].
    apply Hsweep in H0. destruct H0 as [Hw Hlt].
    vm_compute in Hw. injection Hw as <- <-. lia.
Defined.
